(** * CompetitorAnalyzer: the React component of the competitor-analysis front end

    A shallow embedding of [frontend/src/components/CompetitorAnalyzer.tsx]:
    the five [useState] cells, the event handlers [addUrl], [removeUrl],
    [handleKeyPress], [analyzeCompetitors] and [downloadPDF], and the part of
    the rendered tree the handlers and the results section depend on.

    JavaScript strings are represented in Rocq's [string] (one [ascii] per
    byte) by their UTF-8 encoding, in which a surrogate code unit that is not
    part of a pair is written like any other code point of its range, as the
    three bytes ED A0..BF 80..BF.  '/' and the characters
    [encodeURIComponent] keeps are single bytes in that encoding, and string
    equality is byte equality. *)

From Stdlib Require Import String Ascii List NArith ZArith Bool Arith Lia.
From Stdlib Require Import DecimalString.
Import ListNotations.

Open Scope string_scope.
Open Scope list_scope.

(** ** The string primitives the component calls *)

Module JsString.

Definition code (c : ascii) : N := N_of_ascii c.

Definition is_byte (c : ascii) (n : N) : bool := N.eqb (code c) n.

Definition between (lo hi : N) (c : ascii) : bool :=
  N.leb lo (code c) && N.leb (code c) hi.

(** WhiteSpace and LineTerminator code points of ECMAScript, by the length
    of their UTF-8 encoding.  One byte: TAB, LF, VT, FF, CR, SP. *)
Definition ws1 (a : ascii) : bool :=
  between 9 13 a || is_byte a 32.

(** Two bytes: U+00A0 (C2 A0). *)
Definition ws2 (a b : ascii) : bool :=
  is_byte a 0xC2 && is_byte b 0xA0.

(** Three bytes: U+1680, U+2000..U+200A, U+2028, U+2029, U+202F, U+205F,
    U+3000, U+FEFF. *)
Definition ws3 (a b c : ascii) : bool :=
  (is_byte a 0xE1 && is_byte b 0x9A && is_byte c 0x80)
  || (is_byte a 0xE2 && is_byte b 0x80
      && (between 0x80 0x8A c || is_byte c 0xA8 || is_byte c 0xA9 || is_byte c 0xAF))
  || (is_byte a 0xE2 && is_byte b 0x81 && is_byte c 0x9F)
  || (is_byte a 0xE3 && is_byte b 0x80 && is_byte c 0x80)
  || (is_byte a 0xEF && is_byte b 0xBB && is_byte c 0xBF).

Section Strip.
(** Recognisers of a white-space character at the head of a byte list;
    instantiated once for the front of a string and once, mirrored, for
    its reversed end. *)
Variable m1 : ascii -> bool.
Variable m2 : ascii -> ascii -> bool.
Variable m3 : ascii -> ascii -> ascii -> bool.

(** The bytes after one leading white-space character, if there is one. *)
Definition lead (l : list ascii) : option (list ascii) :=
  match l with
  | [] => None
  | a :: l1 =>
      if m1 a then Some l1
      else match l1 with
           | [] => None
           | b :: l2 =>
               if m2 a b then Some l2
               else match l2 with
                    | [] => None
                    | c :: l3 => if m3 a b c then Some l3 else None
                    end
           end
  end.

(** Drop every leading white-space character. *)
Fixpoint strip (l : list ascii) : list ascii :=
  match l with
  | [] => []
  | a :: l1 =>
      if m1 a then strip l1
      else match l1 with
           | [] => l
           | b :: l2 =>
               if m2 a b then strip l2
               else match l2 with
                    | [] => l
                    | c :: l3 => if m3 a b c then strip l3 else l
                    end
           end
  end.
End Strip.

Definition trimStart (l : list ascii) : list ascii :=
  strip ws1 ws2 ws3 l.

Definition trimEnd (l : list ascii) : list ascii :=
  rev (strip ws1 (fun a b => ws2 b a) (fun a b c => ws3 c b a) (rev l)).

(** [String.prototype.trim]. *)
Definition trim (s : string) : string :=
  string_of_list_ascii (trimEnd (trimStart (list_ascii_of_string s))).

(** Truthiness of a string: every string but the empty one. *)
Definition truthy (s : string) : bool :=
  match s with
  | EmptyString => false
  | String _ _ => true
  end.

(** [Array.prototype.includes] on an array of strings. *)
Definition includes (l : list string) (x : string) : bool :=
  existsb (String.eqb x) l.

(** [String.prototype.split] with a one-character separator. *)
Fixpoint split (sep : ascii) (s : string) : list string :=
  match s with
  | EmptyString => [EmptyString]
  | String c r =>
      if Ascii.eqb c sep then EmptyString :: split sep r
      else match split sep r with
           | [] => [String c EmptyString]
           | h :: t => String c h :: t
           end
  end.

(** [Array.prototype.pop]: the last element, [undefined] on an empty
    array. *)
Fixpoint pop (l : list string) : option string :=
  match l with
  | [] => None
  | [x] => Some x
  | _ :: t => pop t
  end.

(** A value interpolated in a template literal. *)
Definition interpolate (v : option string) : string :=
  match v with
  | Some s => s
  | None => "undefined"
  end.

(** Decimal text of a natural number, as a template literal prints it. *)
Definition of_nat (n : nat) : string :=
  NilZero.string_of_uint (Nat.to_uint n).

(** The characters [encodeURIComponent] leaves as they are:
    A-Z a-z 0-9 - _ . ! ~ * ' ( ) *)
Definition unreserved (c : ascii) : bool :=
  between 65 90 c || between 97 122 c || between 48 57 c
  || is_byte c 45 || is_byte c 95 || is_byte c 46 || is_byte c 33 || is_byte c 126
  || is_byte c 42 || is_byte c 39 || is_byte c 40 || is_byte c 41.

Definition hex_digit (n : N) : ascii :=
  if N.ltb n 10 then ascii_of_N (48 + n) else ascii_of_N (55 + n).

(** A lone surrogate at the head of a string: the lead byte ED followed by
    a byte from A0 to BF. *)
Definition surrogate_at (c : ascii) (r : string) : bool :=
  is_byte c 0xED
  && match r with
     | EmptyString => false
     | String d _ => between 0xA0 0xBF d
     end.

(** [encodeURIComponent]: every byte of the UTF-8 encoding that is not
    unreserved becomes %XX with upper-case hexadecimal digits; on a lone
    surrogate the builtin throws a URIError, which is [None] here. *)
Fixpoint encodeURIComponent (s : string) : option string :=
  match s with
  | EmptyString => Some EmptyString
  | String c r =>
      if surrogate_at c r then None
      else match encodeURIComponent r with
           | None => None
           | Some e =>
               Some (if unreserved c then String c e
                     else String "%" (String (hex_digit (N.div (code c) 16))
                            (String (hex_digit (N.modulo (code c) 16)) e)))
           end
  end.

End JsString.

(** ** Asynchronous handlers

    A handler is a program over the component's state setters, [window.open]
    and the promises it awaits.  Between an [await] and the settlement of its
    promise the event loop is free to run other handlers, so a program is a
    tree that stops at every [await] with the rest of the handler as its
    continuation. *)

(** The body of the success response, as the [AnalyzeResponse] interface
    declares it. *)
Record AnalyzeResponse : Type := {
  report_text : string;
  pdf_path : string;
  charts : list string
}.

(** Modelled from the spec: the shape [{ detail?: string }] of the error body
    of POST /api/analyze.  The component reads the parsed body untyped and
    declares no interface for it. *)
Record ErrorData : Type := {
  detail : option string
}.

(** The part of a [Response] the component looks at. *)
Record Response : Type := {
  ok : bool
}.

(** The second argument of [fetch]; [body] keeps the object handed to
    [JSON.stringify], [{ urls }], in structured form. *)
Record RequestInit : Type := {
  method : string;
  headers : list (string * string);
  body : list string
}.

(** A thrown value: an instance of [Error] with its message, or any other
    value. *)
Inductive Thrown : Type :=
| ErrorObject (message : string)
| OtherValue.

(** How a promise settles. *)
Inductive Settled (X : Type) : Type :=
| Fulfilled (x : X)
| Rejected (e : Thrown).

Arguments Fulfilled {X} x.
Arguments Rejected {X} e.

(** The promises the component awaits, indexed by the type of their value. *)
Inductive Op : Type -> Type :=
| fetch (url : string) (init : RequestInit) : Op Response
| json_AnalyzeResponse (r : Response) : Op AnalyzeResponse
| json_any (r : Response) : Op ErrorData.

(** State setters of the five [useState] cells, and [window.open]. *)
Inductive Cmd : Type :=
| setUrls (v : list string)
| setUrlInput (v : string)
| setIsAnalyzing (v : bool)
| setResult (v : option AnalyzeResponse)
| setError (v : option string)
| window_open (url target : string).

(** A handler: it returns, throws, runs a command and goes on, or awaits a
    promise and goes on with the way it settles. *)
Inductive Task (A : Type) : Type :=
| Return (a : A)
| Throw (e : Thrown)
| Do (c : Cmd) (k : Task A)
| Await (X : Type) (op : Op X) (k : Settled X -> Task A).

Arguments Return {A} a.
Arguments Throw {A} e.
Arguments Do {A} c k.
Arguments Await {A X} op k.

Fixpoint bind {A B : Type} (t : Task A) (f : A -> Task B) : Task B :=
  match t with
  | Return a => f a
  | Throw e => Throw e
  | Do c k => Do c (bind k f)
  | Await op k => Await op (fun s => bind (k s) f)
  end.

Declare Scope task_scope.
Delimit Scope task_scope with task.
Bind Scope task_scope with Task.

Notation "x <- t ;; k" := (bind t (fun x => k))
  (at level 61, t at next level, right associativity) : task_scope.
Notation "t ;; k" := (bind t (fun _ => k))
  (at level 61, right associativity) : task_scope.

Open Scope task_scope.

Definition exec (c : Cmd) : Task unit := Do c (Return tt).

(** [await p]: the value of the promise, or its rejection thrown. *)
Definition await {X : Type} (op : Op X) : Task X :=
  Await op (fun s =>
    match s with
    | Fulfilled x => Return x
    | Rejected e => Throw e
    end).

(** [try { t } catch (err) { h err }] *)
Fixpoint try_catch {A : Type} (t : Task A) (h : Thrown -> Task A) : Task A :=
  match t with
  | Return a => Return a
  | Throw e => h e
  | Do c k => Do c (try_catch k h)
  | Await op k => Await op (fun s => try_catch (k s) h)
  end.

(** [try { t } finally { f }] *)
Fixpoint try_finally {A : Type} (t : Task A) (f : Task unit) : Task A :=
  match t with
  | Return a => f ;; Return a
  | Throw e => f ;; Throw e
  | Do c k => Do c (try_finally k f)
  | Await op k => Await op (fun s => try_finally (k s) f)
  end.

Notation "'try' t 'catch' h 'finally' f" := (try_finally (try_catch t h) f)
  (at level 60, t at level 9, h at level 9, f at level 9) : task_scope.

(** ** The component *)

Definition API_BASE : string := "http://localhost:8000".

(** The five [useState] cells, with the initial values of the source. *)
Record State : Type := {
  urls : list string;
  urlInput : string;
  isAnalyzing : bool;
  result : option AnalyzeResponse;
  error : option string
}.

Definition initial : State :=
  {| urls := []; urlInput := ""; isAnalyzing := false;
     result := None; error := None |}.

(** [Array.prototype.filter] with a callback that takes the element and its
    index. *)
Fixpoint filter_from {A : Type} (p : A -> Z -> bool) (i : Z) (l : list A)
  : list A :=
  match l with
  | [] => []
  | x :: t =>
      if p x i then x :: filter_from p (i + 1) t
      else filter_from p (i + 1) t
  end.

Definition array_filter {A : Type} (p : A -> Z -> bool) (l : list A) : list A :=
  filter_from p 0 l.

(** [a || b] on a [string | undefined] left operand. *)
Definition or_else (a : option string) (b : string) : string :=
  match a with
  | Some s => if JsString.truthy s then s else b
  | None => b
  end.

(** The [URIError] that [encodeURIComponent] throws; the text of its message
    is the engine's, and nothing in the component reads it. *)
Definition URIError : Thrown := ErrorObject "URI malformed".

(** Handlers read the state of the render that created them and write
    through the setters. *)
Section Handlers.
Variable s : State.

Definition addUrl : Task unit :=
  if JsString.truthy (JsString.trim (urlInput s))
     && negb (JsString.includes (urls s) (JsString.trim (urlInput s)))
  then
    exec (setUrls (urls s ++ [JsString.trim (urlInput s)])) ;;
    exec (setUrlInput "")
  else Return tt.

Definition removeUrl (index : Z) : Task unit :=
  exec (setUrls (array_filter (fun _ i => negb (Z.eqb i index)) (urls s))).

Definition handleKeyPress (key : string) : Task unit :=
  if String.eqb key "Enter" then addUrl else Return tt.

Definition analyzeCompetitors : Task unit :=
  if Nat.eqb (List.length (urls s)) 0 then
    exec (setError (Some "Добавьте хотя бы один URL для анализа"))
  else
    exec (setIsAnalyzing true) ;;
    exec (setError None) ;;
    exec (setResult None) ;;
    try
      (response <- await (fetch (API_BASE ++ "/api/analyze")
                            {| method := "POST";
                               headers := [("Content-Type", "application/json")];
                               body := urls s |}) ;;
       (if negb (ok response) then
          errorData <- await (json_any response) ;;
          Throw (ErrorObject (or_else (detail errorData) "Ошибка при анализе"))
        else Return tt) ;;
       data <- await (json_AnalyzeResponse response) ;;
       exec (setResult (Some data)))
    catch (fun err =>
       exec (setError (Some match err with
                            | ErrorObject message => message
                            | OtherValue => "Произошла ошибка"
                            end)))
    finally
      (exec (setIsAnalyzing false)).

Definition downloadPDF : Task unit :=
  match result s with
  | Some r =>
      if JsString.truthy (pdf_path r) then
        match JsString.encodeURIComponent (pdf_path r) with
        | Some path =>
            exec (window_open (API_BASE ++ "/api/download?path=" ++ path)
                    "_blank")
        | None => Throw URIError
        end
      else Return tt
  | None => Return tt
  end.
End Handlers.

(** ** Running handlers *)

(** What a handler can change: the state cells, the windows it opened and the
    requests it sent (latest last). *)
Record World : Type := {
  ui : State;
  opened : list (string * string);
  requests : list (string * RequestInit)
}.

Definition boot : World :=
  {| ui := initial; opened := []; requests := [] |}.

Definition with_ui (f : State -> State) (w : World) : World :=
  {| ui := f (ui w); opened := opened w; requests := requests w |}.

Definition apply (c : Cmd) (w : World) : World :=
  match c with
  | setUrls v =>
      with_ui (fun s => {| urls := v; urlInput := urlInput s;
                           isAnalyzing := isAnalyzing s;
                           result := result s; error := error s |}) w
  | setUrlInput v =>
      with_ui (fun s => {| urls := urls s; urlInput := v;
                           isAnalyzing := isAnalyzing s;
                           result := result s; error := error s |}) w
  | setIsAnalyzing v =>
      with_ui (fun s => {| urls := urls s; urlInput := urlInput s;
                           isAnalyzing := v;
                           result := result s; error := error s |}) w
  | setResult v =>
      with_ui (fun s => {| urls := urls s; urlInput := urlInput s;
                           isAnalyzing := isAnalyzing s;
                           result := v; error := error s |}) w
  | setError v =>
      with_ui (fun s => {| urls := urls s; urlInput := urlInput s;
                           isAnalyzing := isAnalyzing s;
                           result := result s; error := v |}) w
  | window_open url target =>
      {| ui := ui w; opened := opened w ++ [(url, target)];
         requests := requests w |}
  end.

(** Starting to await a [fetch] sends the request; reading a body sends
    nothing. *)
Definition issue {X : Type} (op : Op X) (w : World) : World :=
  match op with
  | fetch url init =>
      {| ui := ui w; opened := opened w;
         requests := requests w ++ [(url, init)] |}
  | _ => w
  end.

(** How the outside world settles each promise. *)
Definition Env : Type := forall X : Type, Op X -> Settled X.

(** A whole call: the handler runs to its end, every promise it awaits being
    settled by [env], with no other handler in between. *)
Fixpoint run {A : Type} (env : Env) (t : Task A) (w : World)
  : Settled A * World :=
  match t with
  | Return a => (Fulfilled a, w)
  | Throw e => (Rejected e, w)
  | Do c k => run env k (apply c w)
  | Await op k => run env (k (env _ op)) (issue op w)
  end.

Definition call (env : Env) (handler : State -> Task unit) (w : World) : World :=
  snd (run env (handler (ui w)) w).

(** A handler stopped at an [await]. *)
Inductive Suspended : Type :=
| Susp (X : Type) (op : Op X) (k : Settled X -> Task unit).

Arguments Susp {X} op k.

(** Run a handler up to its next [await], or to its end; an exception that
    leaves a handler is not seen by the component. *)
Fixpoint advance (t : Task unit) (w : World) : option Suspended * World :=
  match t with
  | Return _ => (None, w)
  | Throw _ => (None, w)
  | Do c k => advance k (apply c w)
  | Await op k => (Some (Susp op k), issue op w)
  end.

(** The event loop: the world and the handlers waiting for a promise. *)
Record Loop : Type := {
  world : World;
  waiting : list Suspended
}.

Definition start : Loop := {| world := boot; waiting := [] |}.

Definition spawn (t : Task unit) (others : list Suspended) (w : World) : Loop :=
  match advance t w with
  | (Some p, w') => {| world := w'; waiting := others ++ [p] |}
  | (None, w') => {| world := w'; waiting := others |}
  end.

Fixpoint remove_nth {A : Type} (n : nat) (l : list A) : list A :=
  match n, l with
  | _, [] => []
  | O, _ :: t => t
  | S m, x :: t => x :: remove_nth m t
  end.

Inductive Event : Type :=
| Change (value : string)
| KeyPress (key : string)
| ClickAdd
| ClickRemove (index : Z)
| ClickAnalyze
| ClickDownload
| Settle (n : nat) (env : Env).

Definition handler (e : Event) (s : State) : Task unit :=
  match e with
  | Change value => exec (setUrlInput value)
  | KeyPress key => handleKeyPress s key
  | ClickAdd => addUrl s
  | ClickRemove index => removeUrl s index
  | ClickAnalyze => analyzeCompetitors s
  | ClickDownload => downloadPDF s
  | Settle _ _ => Return tt
  end.

(** One turn of the event loop with the handler invoked directly, whatever
    the rendered controls allow. *)
Definition dispatch (l : Loop) (e : Event) : Loop :=
  match e with
  | Settle n env =>
      match nth_error (waiting l) n with
      | Some (Susp op k) =>
          spawn (k (env _ op)) (remove_nth n (waiting l)) (world l)
      | None => l
      end
  | _ => spawn (handler e (ui (world l))) (waiting l) (world l)
  end.

(** ** The rendered tree *)

Record Img : Type := {
  src : string;
  alt : string
}.

(** The results section: the report text and, when there are charts, the
    grid of chart images; the download button is always part of it. *)
Record Results : Type := {
  report : string;
  charts_grid : option (list Img)
}.

Record View : Type := {
  url_field : string;
  url_list : option (list string);
  analyze_disabled : bool;
  analyze_label : string;
  error_message : option string;
  results_section : option Results
}.

(** [Array.prototype.map] with a callback that takes the element and its
    index. *)
Fixpoint map_from {A B : Type} (f : A -> nat -> B) (i : nat) (l : list A)
  : list B :=
  match l with
  | [] => []
  | x :: t => f x i :: map_from f (S i) t
  end.

Definition array_map {A B : Type} (f : A -> nat -> B) (l : list A) : list B :=
  map_from f 0 l.

Definition chart_img (chart : string) (index : nat) : Img :=
  {| src := API_BASE ++ "/charts/"
              ++ JsString.interpolate (JsString.pop (JsString.split "/" chart));
     alt := "График " ++ JsString.of_nat (index + 1) |}.

Definition render (s : State) : View :=
  {| url_field := urlInput s;
     url_list :=
       if Nat.ltb 0 (List.length (urls s)) then Some (urls s) else None;
     analyze_disabled := isAnalyzing s || Nat.eqb (List.length (urls s)) 0;
     analyze_label :=
       if isAnalyzing s then "Анализируем..." else "Запустить анализ";
     error_message :=
       match error s with
       | Some e => if JsString.truthy e then Some e else None
       | None => None
       end;
     results_section :=
       match result s with
       | Some r =>
           Some {| report := report_text r;
                   charts_grid :=
                     if Nat.ltb 0 (List.length (charts r))
                     then Some (array_map chart_img (charts r))
                     else None |}
       | None => None
       end |}.

(** Which events the rendered controls can deliver: the analyze button does
    nothing while it is disabled, there is one remove button per listed url,
    and the download button exists only inside the results section.  The text
    field and the add button are always there, and the settlement of a
    promise does not come from a control. *)
Definition offered (v : View) (e : Event) : bool :=
  match e with
  | ClickAnalyze => negb (analyze_disabled v)
  | ClickRemove index =>
      match url_list v with
      | Some items =>
          Z.leb 0 index && Z.ltb index (Z.of_nat (List.length items))
      | None => false
      end
  | ClickDownload =>
      match results_section v with
      | Some _ => true
      | None => false
      end
  | _ => true
  end.

(** One turn of the event loop with the event coming through the rendered
    controls. *)
Definition ui_dispatch (l : Loop) (e : Event) : Loop :=
  if offered (render (ui (world l))) e then dispatch l e else l.

(** ** The session states of the specification *)

Inductive Session : Type :=
| Idle
| Analyzing
| Succeeded (r : AnalyzeResponse)
| Failed (message : string).

(** How the four session states read in the state cells: analyzing is the
    flag, success a stored result, failure a stored error, idle none of
    them. *)
Definition active (s : State) (x : Session) : Prop :=
  match x with
  | Idle => isAnalyzing s = false /\ result s = None /\ error s = None
  | Analyzing => isAnalyzing s = true
  | Succeeded r => result s = Some r
  | Failed message => error s = Some message
  end.


(** The invariant of the url list: non-empty trimmed strings, no
    duplicates. *)
Definition urls_ok (l : list string) : Prop :=
  Forall (fun u => u <> "" /\ JsString.trim u = u) l /\ NoDup l.

(** A promise environment given by its three answers. *)
Definition env_of (f : Settled Response) (a : Settled AnalyzeResponse)
  (e : Settled ErrorData) : Env :=
  fun X op =>
    match op in Op T return Settled T with
    | fetch _ _ => f
    | json_AnalyzeResponse _ => a
    | json_any _ => e
    end.

(** ** Auxiliary notions for the statements and proofs *)

(** A world with the given url list and input field, nothing in progress,
    nothing stored, nothing sent. *)
Definition sample_world (l : list string) (input : string) : World :=
  {| ui := {| urls := l; urlInput := input; isAnalyzing := false;
              result := None; error := None |};
     opened := []; requests := [] |}.

(** Every promise is rejected with a value that is not an [Error]. *)
Definition no_answers : Env :=
  env_of (Rejected OtherValue) (Rejected OtherValue) (Rejected OtherValue).

(** The text stored for a caught value: the message of an [Error], the
    fallback text for anything else. *)
Definition caught_text (e : Thrown) : string :=
  match e with
  | ErrorObject message => message
  | OtherValue => "Произошла ошибка"
  end.

(** Segments put back together with the separator between them. *)
Fixpoint join (sep : string) (l : list string) : string :=
  match l with
  | [] => ""
  | [x] => x
  | x :: t => (x ++ sep ++ join sep t)%string
  end.

(** The character does not occur in the string. *)
Definition free_of (c : ascii) (s : string) : Prop :=
  ~ In c (list_ascii_of_string s).

(** [b] is the last '/'-separated segment of [p]: it holds no '/', and [p]
    is [b] alone or ends in a '/' followed by [b]. *)
Definition last_segment (b p : string) : Prop :=
  free_of "/" b
  /\ (p = b \/ exists pre : string, p = (pre ++ "/" ++ b)%string).

(** The value of a hexadecimal digit. *)
Definition hex_value (c : ascii) : option N :=
  if JsString.between 48 57 c then Some (JsString.code c - 48)%N
  else if JsString.between 65 70 c then Some (JsString.code c - 55)%N
  else if JsString.between 97 102 c then Some (JsString.code c - 87)%N
  else None.

(** Reading a percent-encoded text back: %XY stands for the byte with the
    hexadecimal digits X and Y, every other character for itself. *)
Fixpoint percent_decode (s : string) : option string :=
  match s with
  | EmptyString => Some EmptyString
  | String c r =>
      if Ascii.eqb c "%" then
        match r with
        | String h (String l r') =>
            match hex_value h, hex_value l, percent_decode r' with
            | Some x, Some y, Some d =>
                Some (String (ascii_of_N (16 * x + y)) d)
            | _, _, _ => None
            end
        | _ => None
        end
      else option_map (String c) (percent_decode r)
  end.

(** Handlers that await nothing and leave the three session cells alone. *)
Inductive Quiet : Task unit -> Prop :=
| quiet_return : Quiet (Return tt)
| quiet_throw e : Quiet (Throw e)
| quiet_urls v k : Quiet k -> Quiet (Do (setUrls v) k)
| quiet_input v k : Quiet k -> Quiet (Do (setUrlInput v) k)
| quiet_open url target k : Quiet k -> Quiet (Do (window_open url target) k).

(** What is left of [analyzeCompetitors] once its request is on its way:
    further promises to await, and then either the storing of the result or
    the storing of an error, each followed by the reset of the flag. *)
Inductive Settling : Task unit -> Prop :=
| settling_result d :
    Settling (Do (setResult (Some d)) (Do (setIsAnalyzing false) (Return tt)))
| settling_error m :
    Settling (Do (setError (Some m)) (Do (setIsAnalyzing false) (Return tt)))
| settling_await X (op : Op X) k :
    (forall s, Settling (k s)) -> Settling (Await op k).

Definition calm (s : State) : Prop :=
  isAnalyzing s = false /\ (result s = None \/ error s = None).

Definition busy (s : State) : Prop :=
  isAnalyzing s = true /\ result s = None /\ error s = None.

(** The invariant of the event loop when events come through the rendered
    controls: either no call is waiting and the flag is down with at most one
    of result and error stored, or one call of [analyzeCompetitors] is
    waiting, the flag is up and neither is stored. *)
Inductive Coherent (l : Loop) : Prop :=
| coherent_calm :
    waiting l = [] -> calm (ui (world l)) -> Coherent l
| coherent_busy X (op : Op X) k :
    waiting l = [Susp op k] -> busy (ui (world l)) ->
    (forall s, Settling (k s)) -> Coherent l.

Definition same_session (s s' : State) : Prop :=
  isAnalyzing s' = isAnalyzing s /\ result s' = result s /\ error s' = error s.

(** The success response of the specification's example. *)
Definition sample_result : AnalyzeResponse :=
  {| report_text := "X"; pdf_path := "/r/a.pdf"; charts := ["/c/1.png"] |}.

(** The request succeeds and its body reads as [sample_result]. *)
Definition answers_ok : Env :=
  env_of (Fulfilled {| ok := true |}) (Fulfilled sample_result)
    (Rejected OtherValue).


(** The request a call of [analyzeCompetitors] sends for a url list: the
    address and the second argument of its [fetch]. *)
Definition analyze_request (l : list string) : string * RequestInit :=
  ((API_BASE ++ "/api/analyze")%string,
   {| method := "POST";
      headers := [("Content-Type", "application/json")];
      body := l |}).

(** A waiting handler whose rest is the rest of a call of
    [analyzeCompetitors]. *)
Definition waiting_analysis (p : Suspended) : Prop :=
  match p with
  | Susp op k => forall a, Settling (k a)
  end.

(** The characters a percent-encoded text is made of: the unreserved ones,
    which include the hexadecimal digits, and the percent sign. *)
Definition encoded_char (c : ascii) : bool :=
  JsString.unreserved c || Ascii.eqb c "%".

(** The string holds a surrogate code unit that is not part of a pair. *)
Definition has_lone_surrogate (s : string) : Prop :=
  exists (pre : string) (d : ascii) (post : string),
    s = (pre ++ String "237" (String d post))%string
    /\ JsString.between 0xA0 0xBF d = true.

(** The path [\uD800], one lone surrogate. *)
Definition lone_surrogate : string := String "237" (String "160" (String "128" "")).

(** A thrown [Error] whose message is the empty string. *)
Definition blank_error : Thrown := ErrorObject "".

(** * Properties *)

Example trim_sample :
  JsString.trim "  https://a.example/x y " = "https://a.example/x y".
Proof. reflexivity. Qed.

Example trim_wide_spaces :
  JsString.trim (String "194" (String "160" "a")) = "a".
Proof. reflexivity. Qed.

Example encode_sample :
  JsString.encodeURIComponent "/r/a b.pdf" = Some "%2Fr%2Fa%20b.pdf".
Proof. reflexivity. Qed.

Example split_sample :
  JsString.split "/" "/c/1.png" = [""; "c"; "1.png"].
Proof. reflexivity. Qed.

Example analyze_empty_sample :
  analyzeCompetitors initial
  = Do (setError (Some "Добавьте хотя бы один URL для анализа")) (Return tt).
Proof. reflexivity. Qed.

(** ** Trimming *)

Section StripFacts.
Variable m1 : ascii -> bool.
Variable m2 : ascii -> ascii -> bool.
Variable m3 : ascii -> ascii -> ascii -> bool.

Let lead := JsString.lead m1 m2 m3.
Let strip := JsString.strip m1 m2 m3.

Lemma strip_unfold l :
  strip l = match lead l with Some r => strip r | None => l end.
Proof.
  subst lead strip.
  destruct l as [|a [|b [|c l]]]; simpl; try reflexivity;
    destruct (m1 a); try reflexivity;
    destruct (m2 a b); try reflexivity;
    destruct (m3 a b c); reflexivity.
Qed.

Lemma lead_shorter l r : lead l = Some r -> (length r < length l)%nat.
Proof.
  subst lead.
  destruct l as [|a [|b [|c l]]]; simpl; try discriminate;
    destruct (m1 a); try (intros [= <-]; simpl; lia); try discriminate;
    destruct (m2 a b); try (intros [= <-]; simpl; lia); try discriminate;
    destruct (m3 a b c); try (intros [= <-]; simpl; lia); discriminate.
Qed.

Lemma lead_app p r q : lead p = Some r -> lead (p ++ q) = Some (r ++ q).
Proof.
  subst lead.
  destruct p as [|a [|b [|c p]]]; simpl; try discriminate;
    destruct (m1 a); try (intros [= <-]; reflexivity); try discriminate;
    destruct (m2 a b); try (intros [= <-]; reflexivity); try discriminate;
    destruct (m3 a b c); try (intros [= <-]; reflexivity); discriminate.
Qed.

Lemma strip_measure n : forall l, (length l <= n)%nat ->
  lead (strip l) = None /\ exists p, l = p ++ strip l /\ strip p = [].
Proof.
  induction n as [|n IH]; intros l Hl.
  - destruct l; [|simpl in Hl; lia]. split; [reflexivity | now exists []].
  - rewrite strip_unfold. destruct (lead l) as [r|] eqn:E.
    + pose proof (lead_shorter _ _ E) as Hr.
      destruct (IH r ltac:(lia)) as [H1 (p & Hp & Hs)]. split; [exact H1|].
      clear - E Hp Hs. subst lead strip.
      destruct l as [|a [|b [|c l]]]; simpl in E; try discriminate;
        destruct (m1 a) eqn:E1;
        try (injection E as <-; exists (a :: p); simpl; rewrite E1;
             split; [now f_equal | exact Hs]);
        try discriminate;
        destruct (m2 a b) eqn:E2;
        try (injection E as <-; exists (a :: b :: p); simpl; rewrite E1, E2;
             split; [now do 2 f_equal | exact Hs]);
        try discriminate;
        destruct (m3 a b c) eqn:E3;
        try (injection E as <-; exists (a :: b :: c :: p); simpl;
             rewrite E1, E2, E3; split; [now do 3 f_equal | exact Hs]);
        discriminate.
    + split; [exact E | now exists []].
Qed.

Lemma lead_strip l : lead (strip l) = None.
Proof. exact (proj1 (strip_measure (length l) l (le_n _))). Qed.

Lemma strip_suffix l : exists p, l = p ++ strip l /\ strip p = [].
Proof. exact (proj2 (strip_measure (length l) l (le_n _))). Qed.

Lemma strip_fixed l : lead l = None -> strip l = l.
Proof. intros E. rewrite strip_unfold, E. reflexivity. Qed.
End StripFacts.

Lemma trimStart_clean l :
  JsString.lead JsString.ws1 JsString.ws2 JsString.ws3 (JsString.trimStart l) = None.
Proof. apply lead_strip. Qed.

Lemma trimEnd_prefix l :
  exists q, l = JsString.trimEnd l ++ q /\ JsString.trimEnd q = [].
Proof.
  unfold JsString.trimEnd.
  destruct (strip_suffix JsString.ws1 (fun a b => JsString.ws2 b a)
              (fun a b c => JsString.ws3 c b a) (rev l)) as (p & Hp & Hs).
  exists (rev p). split.
  - rewrite <- rev_app_distr, <- Hp, rev_involutive. reflexivity.
  - rewrite rev_involutive, Hs. reflexivity.
Qed.

Lemma trimEnd_idem l : JsString.trimEnd (JsString.trimEnd l) = JsString.trimEnd l.
Proof.
  unfold JsString.trimEnd. rewrite rev_involutive.
  f_equal. apply strip_fixed, lead_strip.
Qed.

Lemma trimEnd_keeps_clean l :
  JsString.lead JsString.ws1 JsString.ws2 JsString.ws3 l = None ->
  JsString.lead JsString.ws1 JsString.ws2 JsString.ws3 (JsString.trimEnd l) = None.
Proof.
  intros H.
  destruct (JsString.lead _ _ _ (JsString.trimEnd l)) as [r|] eqn:E; [|reflexivity].
  destruct (trimEnd_prefix l) as (q & Hq & _).
  apply (lead_app _ _ _ _ _ q) in E. rewrite <- Hq, H in E. discriminate.
Qed.

Lemma trim_idem s : JsString.trim (JsString.trim s) = JsString.trim s.
Proof.
  unfold JsString.trim.
  rewrite list_ascii_of_string_of_list_ascii.
  set (x := JsString.trimStart (list_ascii_of_string s)).
  assert (Hx : JsString.trimStart (JsString.trimEnd x) = JsString.trimEnd x).
  { apply strip_fixed, trimEnd_keeps_clean, trimStart_clean. }
  rewrite Hx, trimEnd_idem. reflexivity.
Qed.

(** What [trim] returns sits inside its argument between two runs of
    white space, and has no white-space character at either end. *)
Lemma trim_decompose s :
  exists p q,
    list_ascii_of_string s = p ++ list_ascii_of_string (JsString.trim s) ++ q
    /\ JsString.trimStart p = [] /\ JsString.trimEnd q = []
    /\ JsString.trimStart (list_ascii_of_string (JsString.trim s))
       = list_ascii_of_string (JsString.trim s)
    /\ JsString.trimEnd (list_ascii_of_string (JsString.trim s))
       = list_ascii_of_string (JsString.trim s).
Proof.
  unfold JsString.trim. rewrite list_ascii_of_string_of_list_ascii.
  destruct (strip_suffix JsString.ws1 JsString.ws2 JsString.ws3
              (list_ascii_of_string s)) as (p & Hp & Hs).
  fold (JsString.trimStart (list_ascii_of_string s)) in Hp.
  set (x := JsString.trimStart (list_ascii_of_string s)) in *.
  destruct (trimEnd_prefix x) as (q & Hq & Hqs).
  exists p, q. split; [now rewrite <- Hq|].
  split; [exact Hs|]. split; [exact Hqs|]. split.
  - apply strip_fixed, trimEnd_keeps_clean, trimStart_clean.
  - apply trimEnd_idem.
Qed.

Lemma truthy_nonempty s : JsString.truthy s = true <-> s <> "".
Proof. destruct s; simpl; split; congruence. Qed.

Lemma includes_In l x : JsString.includes l x = true <-> In x l.
Proof.
  unfold JsString.includes. rewrite existsb_exists. split.
  - intros [y [Hy E]]. apply String.eqb_eq in E. now subst.
  - intros H. exists x. split; [exact H | apply String.eqb_refl].
Qed.

(** ** The url list *)

Lemma filter_from_In {A : Type} (p : A -> Z -> bool) (l : list A) :
  forall k x, In x (filter_from p k l) -> In x l.
Proof.
  induction l as [|a l IH]; intros k x; simpl; [tauto|].
  destruct (p a k); simpl; intros H.
  - destruct H as [H|H]; [now left | right; eauto].
  - right; eauto.
Qed.

Lemma filter_from_Forall {A : Type} (P : A -> Prop) (p : A -> Z -> bool)
  (l : list A) :
  forall k, Forall P l -> Forall P (filter_from p k l).
Proof.
  induction l as [|a l IH]; intros k H; simpl; [constructor|].
  inversion H; subst. destruct (p a k); [constructor|]; auto.
Qed.

Lemma filter_from_NoDup {A : Type} (p : A -> Z -> bool) (l : list A) :
  forall k, NoDup l -> NoDup (filter_from p k l).
Proof.
  induction l as [|a l IH]; intros k H; simpl; [constructor|].
  inversion H; subst. destruct (p a k); [constructor|]; auto.
  intros Hin. apply filter_from_In in Hin. contradiction.
Qed.

Lemma filter_from_skip {A : Type} (index : Z) (l : list A) :
  forall k, (index < k)%Z ->
    filter_from (fun _ i => negb (Z.eqb i index)) k l = l.
Proof.
  induction l as [|a l IH]; intros k Hk; simpl; [reflexivity|].
  destruct (Z.eqb_spec k index); [lia|]. simpl. f_equal. apply IH. lia.
Qed.

Lemma filter_from_drop {A : Type} (index : Z) (l : list A) :
  forall k, (k <= index < k + Z.of_nat (length l))%Z ->
    filter_from (fun _ i => negb (Z.eqb i index)) k l
    = firstn (Z.to_nat (index - k)) l ++ skipn (S (Z.to_nat (index - k))) l.
Proof.
  induction l as [|a l IH]; intros k Hk; simpl in *; [lia|].
  destruct (Z.eqb_spec k index) as [->|Hne]; simpl.
  - rewrite Z.sub_diag. simpl. apply filter_from_skip. lia.
  - replace (Z.to_nat (index - k)) with (S (Z.to_nat (index - (k + 1)))) by lia.
    simpl. f_equal. apply IH. lia.
Qed.

Lemma filter_from_miss {A : Type} (index : Z) (l : list A) :
  forall k, ~ (k <= index < k + Z.of_nat (length l))%Z ->
    filter_from (fun _ i => negb (Z.eqb i index)) k l = l.
Proof.
  induction l as [|a l IH]; intros k Hk; simpl in *; [reflexivity|].
  destruct (Z.eqb_spec k index) as [->|Hne]; simpl; [lia|].
  f_equal. apply IH. lia.
Qed.

Lemma world_eta (w : World) :
  {| ui := {| urls := urls (ui w); urlInput := urlInput (ui w);
              isAnalyzing := isAnalyzing (ui w);
              result := result (ui w); error := error (ui w) |};
     opened := opened w; requests := requests w |} = w.
Proof. destruct w as [[? ? ? ? ?] ? ?]; reflexivity. Qed.

(** C6: [addUrl] works on the trimmed input; when that is empty or already
    in the list nothing changes (so the list keeps its length), and
    otherwise it is appended at the end of the list and the input field is
    cleared, the rest of the state being untouched. *)
Theorem addUrl_appends_trimmed_or_is_noop (env : Env) (w : World) :
  let t := JsString.trim (urlInput (ui w)) in
  let w' := call env addUrl w in
  (t = "" \/ In t (urls (ui w)) ->
     w' = w /\ length (urls (ui w')) = length (urls (ui w)))
  /\ (t <> "" /\ ~ In t (urls (ui w)) ->
        ui w' = {| urls := urls (ui w) ++ [t]; urlInput := "";
                   isAnalyzing := isAnalyzing (ui w);
                   result := result (ui w); error := error (ui w) |}
        /\ opened w' = opened w /\ requests w' = requests w).
Proof.
  intros t w'. subst w'. unfold call, addUrl. fold t.
  destruct (JsString.truthy t) eqn:Ht; simpl.
  - destruct (JsString.includes (urls (ui w)) t) eqn:Hi; simpl.
    + split; [intros _; split; reflexivity|].
      intros [_ Hn]. apply includes_In in Hi. contradiction.
    + split.
      * intros [H|H].
        -- apply truthy_nonempty in Ht. contradiction.
        -- apply includes_In in H. congruence.
      * intros _. repeat split; reflexivity.
  - split; [intros _; split; reflexivity|].
    intros [Hn _]. apply truthy_nonempty in Hn. congruence.
Qed.

Lemma addUrl_witness :
  urls (ui (call no_answers addUrl (sample_world ["a"] " b "))) = ["a"; "b"]
  /\ call no_answers addUrl (sample_world ["a"] " a ") = sample_world ["a"] " a ".
Proof.
  split.
  - destruct (addUrl_appends_trimmed_or_is_noop no_answers
                (sample_world ["a"] " b ")) as [_ H].
    destruct H as [H _].
    + split; [discriminate|]. simpl. intros [E|[]]. discriminate E.
    + rewrite H. reflexivity.
  - destruct (addUrl_appends_trimmed_or_is_noop no_answers
                (sample_world ["a"] " a ")) as [H _].
    apply H. right. simpl. left. reflexivity.
Defined.

(** C7: [removeUrl] takes out exactly the entry at the index: for an index
    inside the list what remains is the entries before it followed by the
    entries after it, in their order, one entry fewer; for any other index
    nothing changes. *)
Theorem removeUrl_removes_exactly_index (env : Env) (w : World) (index : Z) :
  let l := urls (ui w) in
  let w' := call env (fun s => removeUrl s index) w in
  ((0 <= index < Z.of_nat (length l))%Z ->
     urls (ui w') = firstn (Z.to_nat index) l ++ skipn (S (Z.to_nat index)) l
     /\ S (length (urls (ui w'))) = length l
     /\ urlInput (ui w') = urlInput (ui w)
     /\ isAnalyzing (ui w') = isAnalyzing (ui w)
     /\ result (ui w') = result (ui w)
     /\ error (ui w') = error (ui w)
     /\ opened w' = opened w /\ requests w' = requests w)
  /\ (~ (0 <= index < Z.of_nat (length l))%Z -> w' = w).
Proof.
  intros l w'. subst w'. unfold call, removeUrl, array_filter. simpl. fold l.
  split.
  - intros H. rewrite filter_from_drop by lia.
    rewrite Z.sub_0_r. repeat split.
    rewrite length_app, length_firstn, length_skipn. lia.
  - intros H. rewrite filter_from_miss by lia.
    unfold with_ui, l. simpl. apply world_eta.
Qed.

Lemma removeUrl_witness :
  urls (ui (call no_answers (fun s => removeUrl s 1)
              (sample_world ["a"; "b"; "c"] ""))) = ["a"; "c"]
  /\ call no_answers (fun s => removeUrl s 3) (sample_world ["a"; "b"; "c"] "")
     = sample_world ["a"; "b"; "c"] "".
Proof.
  split.
  - destruct (removeUrl_removes_exactly_index no_answers
                (sample_world ["a"; "b"; "c"] "") 1) as [H _].
    destruct H as [H _]; [simpl; lia|]. rewrite H. reflexivity.
  - destruct (removeUrl_removes_exactly_index no_answers
                (sample_world ["a"; "b"; "c"] "") 3) as [_ H].
    apply H. simpl. lia.
Defined.

(** C10: the url list holds non-empty strings that are their own trimmed
    form, without duplicates: so it is in the initial state, and [addUrl] and
    [removeUrl] keep it so. *)
Theorem urls_stay_trimmed_and_distinct (env : Env) :
  urls_ok (urls initial)
  /\ forall w : World, urls_ok (urls (ui w)) ->
       urls_ok (urls (ui (call env addUrl w)))
       /\ forall index : Z,
            urls_ok (urls (ui (call env (fun s => removeUrl s index) w))).
Proof.
  split; [split; constructor|].
  intros w [Hall Hnd]. split.
  - unfold call, addUrl.
    destruct (JsString.truthy _) eqn:Ht; simpl; [|now split].
    destruct (JsString.includes _ _) eqn:Hi; simpl; [now split|].
    split.
    + apply Forall_app. split; [exact Hall|].
      constructor; [|constructor]. split.
      * now apply truthy_nonempty.
      * apply trim_idem.
    + apply NoDup_app; [exact Hnd | repeat constructor; simpl; tauto |].
      intros x Hx [<-|[]].
      apply includes_In in Hx. congruence.
  - intros index. unfold call, removeUrl, array_filter. simpl. split.
    + now apply filter_from_Forall.
    + now apply filter_from_NoDup.
Qed.

Lemma urls_invariant_witness :
  urls_ok (urls (ui (call no_answers addUrl (sample_world ["a"] " b ")))).
Proof.
  apply (urls_stay_trimmed_and_distinct no_answers).
  split.
  - constructor; [split; [discriminate | reflexivity] | constructor].
  - constructor; [simpl; tauto | constructor].
Defined.

(** ** The analysis request *)

(** Case analysis on a whole call of [analyzeCompetitors] with urls in the
    list: the five ways the promises can settle. *)
Ltac settle_all env :=
  unfold call, analyzeCompetitors;
  match goal with
  | |- context [urls (ui ?w)] =>
      let E := fresh "Eurls" in
      destruct (urls (ui w)) as [|? ?] eqn:E; [congruence|]
  end;
  cbn [length Nat.eqb bind exec run try_catch try_finally await apply issue];
  match goal with
  | |- context [env Response ?op] =>
      let Ef := fresh "Efetch" in
      destruct (env Response op) as [[[|]]|?] eqn:Ef
  end;
  cbn [bind exec run try_catch try_finally await apply issue ok negb];
  try match goal with
  | |- context [env AnalyzeResponse ?op] =>
      let Ej := fresh "Ejson" in
      destruct (env AnalyzeResponse op) as [?|?] eqn:Ej
  end;
  try match goal with
  | |- context [env ErrorData ?op] =>
      let Ej := fresh "Ejson" in
      destruct (env ErrorData op) as [[?]|?] eqn:Ej
  end;
  cbn [bind exec run try_catch try_finally await apply issue detail].

(** C1: a call of [analyzeCompetitors] with urls in the list leaves the
    [isAnalyzing] flag false, however the request and the reading of its body
    settle. *)
Theorem analyzeCompetitors_resets_flag (env : Env) (w : World) :
  urls (ui w) <> [] ->
  isAnalyzing (ui (call env analyzeCompetitors w)) = false.
Proof.
  intros Hne. settle_all env; reflexivity.
Qed.

(** C3: a call of [analyzeCompetitors] with an empty url list awaits no
    promise and sends no request; it stores the validation message, a
    non-empty string, as the error, which the error panel then shows. *)
Theorem analyzeCompetitors_empty_list_validates (env : Env) (w : World) :
  urls (ui w) = [] ->
  let w' := call env analyzeCompetitors w in
  fst (advance (analyzeCompetitors (ui w)) w) = None
  /\ requests w' = requests w
  /\ error (ui w') = Some "Добавьте хотя бы один URL для анализа"
  /\ error_message (render (ui w')) = Some "Добавьте хотя бы один URL для анализа"
  /\ "Добавьте хотя бы один URL для анализа" <> "".
Proof.
  intros E w'. subst w'. unfold call, analyzeCompetitors. rewrite E. simpl.
  repeat split. discriminate.
Qed.

Lemma analyzeCompetitors_empty_list_witness :
  requests (call no_answers analyzeCompetitors (sample_world [] "x")) = []
  /\ error (ui (call no_answers analyzeCompetitors (sample_world [] "x")))
     = Some "Добавьте хотя бы один URL для анализа".
Proof.
  destruct (analyzeCompetitors_empty_list_validates no_answers
              (sample_world [] "x") eq_refl) as (_ & H1 & H2 & _).
  split; [exact H1 | exact H2].
Defined.

(** C4, as the component has it: after a non-success response whose body
    parses, the stored and displayed error is the [detail] field when that is
    a non-empty string, and the fallback text, itself non-empty, when the
    field is absent or is the empty string. *)
Theorem http_error_shows_detail_or_fallback
  (env : Env) (w : World) (r : Response) (d : ErrorData) :
  urls (ui w) <> [] ->
  (forall url init, env Response (fetch url init) = Fulfilled r) ->
  ok r = false ->
  env ErrorData (json_any r) = Fulfilled d ->
  let s' := ui (call env analyzeCompetitors w) in
  (forall m, detail d = Some m -> m <> "" ->
     error s' = Some m /\ error_message (render s') = Some m)
  /\ (detail d = None \/ detail d = Some "" ->
        error s' = Some "Ошибка при анализе"
        /\ error_message (render s') = Some "Ошибка при анализе")
  /\ "Ошибка при анализе" <> "".
Proof.
  intros Hne Hf Hok Hj s'. subst s'.
  destruct r as [okr]. simpl in Hok. subst okr.
  settle_all env; rewrite Hf in Efetch; try discriminate;
    try discriminate Hj.
  injection Hj as <-. simpl.
  split; [|split; [|discriminate]].
  - intros m -> Hm. apply truthy_nonempty in Hm.
    unfold or_else. rewrite Hm. simpl. rewrite Hm. split; reflexivity.
  - intros [->| ->]; split; reflexivity.
Qed.

Lemma http_error_witness :
  error (ui (call (env_of (Fulfilled {| ok := false |}) (Rejected OtherValue)
                     (Fulfilled {| detail := Some "bad url" |}))
               analyzeCompetitors (sample_world ["a"] "")))
  = Some "bad url".
Proof.
  destruct (http_error_shows_detail_or_fallback
              (env_of (Fulfilled {| ok := false |}) (Rejected OtherValue)
                 (Fulfilled {| detail := Some "bad url" |}))
              (sample_world ["a"] "") {| ok := false |}
              {| detail := Some "bad url" |}) as [H _].
  - discriminate.
  - reflexivity.
  - reflexivity.
  - reflexivity.
  - apply (H "bad url"); [reflexivity | discriminate].
Defined.

(** C4 as stated fails when the [detail] field is present and is the empty
    string: the error shown is the fallback text, not the field. *)
Lemma http_error_empty_detail_counterexample :
  detail {| detail := Some "" |} = Some ""
  /\ error (ui (call (env_of (Fulfilled {| ok := false |}) (Rejected OtherValue)
                        (Fulfilled {| detail := Some "" |}))
                  analyzeCompetitors (sample_world ["a"] "")))
     = Some "Ошибка при анализе"
  /\ error (ui (call (env_of (Fulfilled {| ok := false |}) (Rejected OtherValue)
                        (Fulfilled {| detail := Some "" |}))
                  analyzeCompetitors (sample_world ["a"] "")))
     <> Some "".
Proof.
  split; [reflexivity|]. split; [reflexivity|]. discriminate.
Qed.

(** C5, as the component has it: when [fetch] rejects, or the body of the
    response cannot be read, the call ends in the failed state: not
    analyzing, no result, and as stored error the message of the thrown
    [Error], or the fallback text when the thrown value is not an [Error].
    A stored text that is not empty is what the error panel shows; when the
    message of the [Error] is the empty string, the empty string is stored
    and no error panel is shown. *)
Theorem exception_ends_in_failed (env : Env) (w : World) (e : Thrown) :
  urls (ui w) <> [] ->
  ((forall url init, env Response (fetch url init) = Rejected e)
   \/ exists r, (forall url init, env Response (fetch url init) = Fulfilled r)
        /\ ((ok r = true /\ env AnalyzeResponse (json_AnalyzeResponse r) = Rejected e)
            \/ (ok r = false /\ env ErrorData (json_any r) = Rejected e))) ->
  let s' := ui (call env analyzeCompetitors w) in
  s' = {| urls := urls (ui w); urlInput := urlInput (ui w);
          isAnalyzing := false; result := None;
          error := Some (caught_text e) |}
  /\ active s' (Failed (caught_text e))
  /\ (forall y, active s' y -> y = Failed (caught_text e))
  /\ (caught_text e <> "" -> error_message (render s') = Some (caught_text e))
  /\ (caught_text e = "" -> error_message (render s') = None)
  /\ caught_text OtherValue <> "".
Proof.
  intros Hne Hthrow s'.
  assert (Hs : s' = {| urls := urls (ui w); urlInput := urlInput (ui w);
                       isAnalyzing := false; result := None;
                       error := Some (caught_text e) |}).
  { subst s'. destruct Hthrow as [Hf | [[okr] [Hf [[Hok Hj] | [Hok Hj]]]]];
      try (simpl in Hok; subst okr);
      settle_all env; rewrite Hf in Efetch; try discriminate;
      try discriminate Hj.
    - injection Efetch as <-. simpl. rewrite Eurls. reflexivity.
    - injection Hj as <-. simpl. rewrite Eurls. reflexivity.
    - injection Hj as <-. simpl. rewrite Eurls. reflexivity. }
  rewrite Hs. split; [reflexivity|]. split; [reflexivity|]. split.
  - intros [| |r|m]; simpl.
    + intros (_ & _ & H). discriminate.
    + discriminate.
    + discriminate.
    + intros [= <-]. reflexivity.
  - split; [|split; [|discriminate]].
    + intros Hm. apply truthy_nonempty in Hm. simpl. rewrite Hm. reflexivity.
    + intros Hm. simpl. rewrite Hm. reflexivity.
Qed.

(** C5 as stated fails when the thrown [Error] has the empty string as its
    message: the empty string is stored, and the view shows no error panel,
    so neither a message nor the fallback text is displayed. *)
Lemma exception_blank_message_counterexample :
  error (ui (call (env_of (Rejected blank_error) (Rejected OtherValue)
                     (Rejected OtherValue))
               analyzeCompetitors (sample_world ["a"] "")))
  = Some ""
  /\ error_message
       (render (ui (call (env_of (Rejected blank_error) (Rejected OtherValue)
                            (Rejected OtherValue))
                      analyzeCompetitors (sample_world ["a"] ""))))
     = None
  /\ error_message
       (render (ui (call (env_of (Rejected blank_error) (Rejected OtherValue)
                            (Rejected OtherValue))
                      analyzeCompetitors (sample_world ["a"] ""))))
     <> Some "Произошла ошибка".
Proof.
  split; [reflexivity|]. split; [reflexivity | discriminate].
Qed.

Lemma exception_witness :
  error (ui (call (env_of (Rejected (ErrorObject "Failed to fetch"))
                     (Rejected OtherValue) (Rejected OtherValue))
               analyzeCompetitors (sample_world ["a"] "")))
  = Some "Failed to fetch".
Proof.
  destruct (exception_ends_in_failed
              (env_of (Rejected (ErrorObject "Failed to fetch"))
                 (Rejected OtherValue) (Rejected OtherValue))
              (sample_world ["a"] "") (ErrorObject "Failed to fetch"))
    as [H _].
  - discriminate.
  - left. reflexivity.
  - rewrite H. reflexivity.
Defined.

Lemma analyzeCompetitors_resets_flag_witness :
  isAnalyzing (ui (call no_answers analyzeCompetitors (sample_world ["a"] "")))
  = false.
Proof.
  apply analyzeCompetitors_resets_flag. discriminate.
Defined.

(** ** Charts and download *)

Lemma split_nonempty sep s : JsString.split sep s <> [].
Proof.
  destruct s as [|c r]; simpl; [discriminate|].
  destruct (Ascii.eqb c sep); [discriminate|].
  destruct (JsString.split sep r); discriminate.
Qed.

Lemma split_join c s :
  join (String c "") (JsString.split c s) = s.
Proof.
  induction s as [|a r IH]; simpl; [reflexivity|].
  destruct (Ascii.eqb_spec a c) as [->|Hne].
  - pose proof (split_nonempty c r) as Hn.
    destruct (JsString.split c r) as [|h t]; [congruence|].
    simpl in *. now rewrite IH.
  - pose proof (split_nonempty c r) as Hn.
    destruct (JsString.split c r) as [|h t]; [congruence|].
    destruct t as [|h' t]; simpl in *; now rewrite <- IH.
Qed.

Lemma split_free c s : Forall (free_of c) (JsString.split c s).
Proof.
  induction s as [|a r IH]; simpl.
  - constructor; [intros []|constructor].
  - destruct (Ascii.eqb_spec a c) as [->|Hne].
    + constructor; [intros []|exact IH].
    + destruct (JsString.split c r) as [|h t].
      * constructor; [|constructor]. intros [H|[]]. congruence.
      * inversion IH; subst. constructor; [|assumption].
        intros [H|H]; [congruence|contradiction].
Qed.

Lemma append_assoc (a b c : string) :
  ((a ++ b) ++ c = a ++ (b ++ c))%string.
Proof. induction a as [|x a IH]; simpl; [reflexivity | now rewrite IH]. Qed.

Lemma pop_join (sep : string) (l : list string) :
  l <> [] ->
  exists b, JsString.pop l = Some b /\ In b l
    /\ (join sep l = b \/ exists pre, join sep l = (pre ++ sep ++ b)%string).
Proof.
  induction l as [|x t IH]; [congruence|]. intros _.
  destruct t as [|y t].
  - exists x. simpl. auto.
  - destruct IH as (b & Hp & Hin & Hj); [discriminate|].
    exists b. split; [exact Hp|]. split; [now right|]. right.
    change (join sep (x :: y :: t)) with (x ++ sep ++ join sep (y :: t))%string.
    destruct Hj as [-> | [pre ->]].
    + now exists x.
    + exists (x ++ sep ++ pre)%string.
      now rewrite !append_assoc.
Qed.

Lemma pop_split_last_segment (p : string) :
  exists b, JsString.pop (JsString.split "/" p) = Some b /\ last_segment b p.
Proof.
  destruct (pop_join "/" (JsString.split "/" p) (split_nonempty _ _))
    as (b & Hp & Hin & Hj).
  exists b. split; [exact Hp|]. split.
  - pose proof (split_free "/" p) as Hf. rewrite Forall_forall in Hf. auto.
  - rewrite split_join in Hj. exact Hj.
Qed.

Lemma map_from_length {A B : Type} (f : A -> nat -> B) (l : list A) :
  forall k, length (map_from f k l) = length l.
Proof. induction l; intros k; simpl; auto. Qed.

Lemma map_from_nth {A B : Type} (f : A -> nat -> B) (l : list A) :
  forall k i x, nth_error l i = Some x ->
    nth_error (map_from f k l) i = Some (f x (k + i)%nat).
Proof.
  induction l as [|a l IH]; intros k [|i] x; simpl; try discriminate.
  - intros [= ->]. now rewrite Nat.add_0_r.
  - intros H. rewrite (IH (S k) i x H). f_equal. f_equal. lia.
Qed.

(** C8: with a result whose chart list is not empty, the results section
    shows a grid with one image per chart path, in order; the source of each
    image is the API base followed by /charts/ and the last '/'-separated
    segment of its path, so "/c/1.png" is shown from .../charts/1.png. *)
Theorem charts_render_by_basename (s : State) (r : AnalyzeResponse) :
  result s = Some r ->
  charts r <> [] ->
  (exists section imgs,
      results_section (render s) = Some section
      /\ charts_grid section = Some imgs
      /\ length imgs = length (charts r)
      /\ forall i chart, nth_error (charts r) i = Some chart ->
           exists img b,
             nth_error imgs i = Some img
             /\ src img = (API_BASE ++ "/charts/" ++ b)%string
             /\ last_segment b chart)
  /\ src (chart_img "/c/1.png" 0) = "http://localhost:8000/charts/1.png".
Proof.
  intros Hr Hc. split; [|reflexivity].
  unfold render. rewrite Hr. simpl.
  destruct (charts r) as [|c0 cs] eqn:E; [congruence|]. simpl.
  eexists. eexists. split; [reflexivity|]. simpl. split; [reflexivity|].
  split; [unfold array_map; simpl; now rewrite map_from_length|].
  intros i chart Hi.
  destruct (pop_split_last_segment chart) as (b & Hp & Hl).
  exists (chart_img chart i), b. split.
  - exact (map_from_nth chart_img (c0 :: cs) 0 i chart Hi).
  - split; [|exact Hl]. unfold chart_img. simpl. now rewrite Hp.
Qed.

Lemma charts_render_witness :
  exists section,
    results_section
      (render {| urls := []; urlInput := ""; isAnalyzing := false;
                 result := Some {| report_text := "X"; pdf_path := "/r/a.pdf";
                                   charts := ["/c/1.png"] |};
                 error := None |}) = Some section
    /\ option_map (map src) (charts_grid section)
       = Some ["http://localhost:8000/charts/1.png"].
Proof.
  destruct (charts_render_by_basename
              {| urls := []; urlInput := ""; isAnalyzing := false;
                 result := Some {| report_text := "X"; pdf_path := "/r/a.pdf";
                                   charts := ["/c/1.png"] |};
                 error := None |}
              {| report_text := "X"; pdf_path := "/r/a.pdf";
                 charts := ["/c/1.png"] |} eq_refl)
    as [(section & imgs & Hs & _) _].
  - discriminate.
  - exists section. split; [exact Hs|].
    injection Hs as <-. reflexivity.
Defined.

Lemma percent_byte (c : ascii) :
  hex_value (JsString.hex_digit (JsString.code c / 16)) = Some (JsString.code c / 16)%N
  /\ hex_value (JsString.hex_digit (JsString.code c mod 16)) = Some (JsString.code c mod 16)%N
  /\ ascii_of_N (16 * (JsString.code c / 16) + JsString.code c mod 16) = c.
Proof.
  destruct c as [[] [] [] [] [] [] [] []]; vm_compute; repeat split.
Qed.

Lemma unreserved_not_percent (c : ascii) :
  JsString.unreserved c = true -> Ascii.eqb c "%" = false.
Proof.
  destruct c as [[] [] [] [] [] [] [] []]; vm_compute; congruence.
Qed.

Lemma percent_decode_encode (s : string) :
  forall q, JsString.encodeURIComponent s = Some q -> percent_decode q = Some s.
Proof.
  induction s as [|c r IH]; intros q; [intros [= <-]; reflexivity|].
  cbn [JsString.encodeURIComponent].
  destruct (JsString.surrogate_at c r); [discriminate|].
  destruct (JsString.encodeURIComponent r) as [e|]; [|discriminate].
  specialize (IH e eq_refl).
  destruct (JsString.unreserved c) eqn:U; intros [= <-].
  - cbn [percent_decode]. rewrite (unreserved_not_percent c U), IH. reflexivity.
  - destruct (percent_byte c) as (H1 & H2 & H3).
    cbn [percent_decode]. rewrite Ascii.eqb_refl, H1, H2, IH, H3. reflexivity.
Qed.

Lemma is_byte_eq (c : ascii) (n : N) :
  JsString.is_byte c n = true -> c = ascii_of_N n.
Proof.
  unfold JsString.is_byte, JsString.code. intros H.
  apply N.eqb_eq in H. rewrite <- H. symmetry. apply ascii_N_embedding.
Qed.

(** [encodeURIComponent] throws exactly on the strings that hold a lone
    surrogate. *)
Lemma encode_throws_iff (s : string) :
  JsString.encodeURIComponent s = None <-> has_lone_surrogate s.
Proof.
  split.
  - induction s as [|c r IH]; [discriminate|].
    cbn [JsString.encodeURIComponent].
    destruct (JsString.surrogate_at c r) eqn:S.
    + intros _. unfold JsString.surrogate_at in S.
      apply andb_true_iff in S. destruct S as [Hc Hd].
      destruct r as [|d post]; [discriminate|].
      apply is_byte_eq in Hc. subst c.
      exists "", d, post. split; [reflexivity | exact Hd].
    + destruct (JsString.encodeURIComponent r) as [e|]; [discriminate|].
      intros _. destruct (IH eq_refl) as (pre & d & post & -> & Hd).
      exists (String c pre), d, post. split; [reflexivity | exact Hd].
  - intros (pre & d & post & -> & Hd).
    induction pre as [|a pre IH].
    + simpl. unfold JsString.surrogate_at.
      change (JsString.is_byte "237" 237) with true. simpl. now rewrite Hd.
    + change (String a pre ++ String "237" (String d post))%string
        with (String a (pre ++ String "237" (String d post)))%string.
      cbn [JsString.encodeURIComponent].
      destruct (JsString.surrogate_at a _); [reflexivity|].
      now rewrite IH.
Qed.

(** C9, as the component has it: with a result whose [pdf_path] is a
    non-empty string without lone surrogates, the download action opens, in
    a new browsing context, the download address of the API with the
    percent-encoded path as its [path] parameter, and changes nothing else;
    with a lone surrogate in the path [encodeURIComponent] throws and nothing
    is opened; with no result, or an empty [pdf_path], the action does
    nothing. *)
Theorem downloadPDF_opens_encoded_path (env : Env) (w : World) :
  let w' := call env downloadPDF w in
  (forall r, result (ui w) = Some r -> pdf_path r <> "" ->
     ~ has_lone_surrogate (pdf_path r) ->
     exists q,
       JsString.encodeURIComponent (pdf_path r) = Some q
       /\ percent_decode q = Some (pdf_path r)
       /\ w' = {| ui := ui w;
                  opened := opened w
                    ++ [((API_BASE ++ "/api/download?path=" ++ q)%string,
                         "_blank")];
                  requests := requests w |})
  /\ (forall r, result (ui w) = Some r -> pdf_path r <> "" ->
        has_lone_surrogate (pdf_path r) ->
        w' = w /\ fst (run env (downloadPDF (ui w)) w) = Rejected URIError)
  /\ (result (ui w) = None
      \/ (exists r, result (ui w) = Some r /\ pdf_path r = "") ->
      w' = w).
Proof.
  intros w'. subst w'. unfold call, downloadPDF. split; [|split].
  - intros r Hr Hp Hs. rewrite Hr. apply truthy_nonempty in Hp. rewrite Hp.
    destruct (JsString.encodeURIComponent (pdf_path r)) as [q|] eqn:E.
    + exists q. split; [reflexivity|].
      split; [now apply percent_decode_encode | reflexivity].
    + apply encode_throws_iff in E. contradiction.
  - intros r Hr Hp Hs. rewrite Hr. apply truthy_nonempty in Hp. rewrite Hp.
    apply encode_throws_iff in Hs. rewrite Hs. split; reflexivity.
  - intros [Hr | (r & Hr & Hp)]; rewrite Hr; [reflexivity|].
    rewrite Hp. reflexivity.
Qed.

Lemma sample_path_well_formed : ~ has_lone_surrogate "/r/a.pdf".
Proof.
  intros H. apply encode_throws_iff in H. discriminate H.
Qed.

Lemma downloadPDF_witness :
  opened (call no_answers downloadPDF
            {| ui := {| urls := []; urlInput := ""; isAnalyzing := false;
                        result := Some {| report_text := "X";
                                          pdf_path := "/r/a.pdf";
                                          charts := [] |};
                        error := None |};
               opened := []; requests := [] |})
  = [("http://localhost:8000/api/download?path=%2Fr%2Fa.pdf", "_blank")]
  /\ call no_answers downloadPDF boot = boot.
Proof.
  split.
  - destruct (downloadPDF_opens_encoded_path no_answers
                {| ui := {| urls := []; urlInput := ""; isAnalyzing := false;
                            result := Some {| report_text := "X";
                                              pdf_path := "/r/a.pdf";
                                              charts := [] |};
                            error := None |};
                   opened := []; requests := [] |}) as [H _].
    destruct (H _ eq_refl ltac:(discriminate) sample_path_well_formed)
      as (q & Eq & _ & E).
    rewrite E. injection Eq as <-. reflexivity.
  - destruct (downloadPDF_opens_encoded_path no_answers boot) as (_ & _ & H).
    apply H. left. reflexivity.
Defined.

(** C9 as stated fails when the [pdf_path] of the result holds a lone
    surrogate: the path is present, [encodeURIComponent] throws a URIError
    and no window is opened. *)
Lemma downloadPDF_lone_surrogate_counterexample :
  pdf_path {| report_text := "X"; pdf_path := lone_surrogate; charts := [] |}
  <> ""
  /\ run no_answers
       (downloadPDF {| urls := []; urlInput := ""; isAnalyzing := false;
                       result := Some {| report_text := "X";
                                         pdf_path := lone_surrogate;
                                         charts := [] |};
                       error := None |})
       boot
     = (Rejected URIError, boot)
  /\ opened (call no_answers downloadPDF
               {| ui := {| urls := []; urlInput := ""; isAnalyzing := false;
                           result := Some {| report_text := "X";
                                             pdf_path := lone_surrogate;
                                             charts := [] |};
                           error := None |};
                  opened := []; requests := [] |})
     = [].
Proof.
  split; [discriminate|]. split; reflexivity.
Qed.

(** ** Session states *)

Lemma quiet_advance t :
  Quiet t -> forall w,
    fst (advance t w) = None /\ same_session (ui w) (ui (snd (advance t w))).
Proof.
  induction 1; intros w; simpl; try (now repeat split);
    match goal with
    | |- context [advance ?k ?w'] =>
        destruct (IHQuiet w') as (H1 & H2 & H3 & H4)
    end;
    (split; [exact H1|]); repeat split; simpl in *; congruence.
Qed.

Lemma quiet_addUrl s : Quiet (addUrl s).
Proof.
  unfold addUrl. destruct (_ && _); simpl; repeat constructor.
Qed.

Lemma quiet_handler e s :
  (forall env n, e <> Settle n env) -> e <> ClickAnalyze -> Quiet (handler e s).
Proof.
  intros Hs Ha. destruct e; simpl.
  - repeat constructor.
  - unfold handleKeyPress. destruct (String.eqb _ _);
      [apply quiet_addUrl | constructor].
  - apply quiet_addUrl.
  - repeat constructor.
  - congruence.
  - unfold downloadPDF. destruct (result s) as [r|]; [|constructor].
    destruct (JsString.truthy _); [|constructor].
    destruct (JsString.encodeURIComponent _); repeat constructor.
  - exfalso. eapply Hs. reflexivity.
Qed.

Lemma coherent_same l w' :
  Coherent l -> same_session (ui (world l)) (ui w') ->
  Coherent {| world := w'; waiting := waiting l |}.
Proof.
  intros H (H1 & H2 & H3). destruct H as [Hw [Ha Hb] | X op k Hw (Ha & Hb & Hc) Hk].
  - apply coherent_calm; [exact Hw|]. split; simpl; [congruence|].
    rewrite H2, H3. exact Hb.
  - apply (coherent_busy _ X op k); [exact Hw | | exact Hk].
    repeat split; simpl; congruence.
Qed.

Lemma coherent_quiet l t :
  Coherent l -> Quiet t -> Coherent (spawn t (waiting l) (world l)).
Proof.
  intros H Q. unfold spawn.
  destruct (quiet_advance t Q (world l)) as [H1 H2].
  destruct (advance t (world l)) as [[p|] w']; simpl in *; [discriminate|].
  now apply coherent_same.
Qed.

Lemma analyzeCompetitors_sends s :
  urls s <> [] ->
  exists k,
    analyzeCompetitors s
    = Do (setIsAnalyzing true) (Do (setError None) (Do (setResult None)
        (Await (fetch (API_BASE ++ "/api/analyze")
                  {| method := "POST";
                     headers := [("Content-Type", "application/json")];
                     body := urls s |}) k)))
    /\ forall a, Settling (k a).
Proof.
  intros Hne. unfold analyzeCompetitors.
  destruct (urls s) as [|u us] eqn:E; [congruence|].
  eexists. split; [reflexivity|].
  intros [[[|]]|e]; cbn.
  - apply settling_await. intros [d|e]; cbn; constructor.
  - apply settling_await. intros [[d]|e]; cbn; constructor.
  - constructor.
Qed.

Lemma settling_resume t :
  Settling t -> forall w, busy (ui w) ->
    Coherent (spawn t [] w).
Proof.
  intros [d|m|X op k Hk] w (Ha & Hb & Hc); unfold spawn; simpl.
  - apply coherent_calm; [reflexivity|]. split; simpl; auto.
  - apply coherent_calm; [reflexivity|]. split; simpl; auto.
  - apply (coherent_busy _ X op k); [reflexivity | | exact Hk].
    destruct op; repeat split; assumption.
Qed.

Lemma coherent_step l e : Coherent l -> Coherent (ui_dispatch l e).
Proof.
  intros H. unfold ui_dispatch.
  destruct (offered (render (ui (world l))) e) eqn:Off; [|exact H].
  destruct e as [v|key| |index| | |n env];
    try (apply coherent_quiet; [exact H | apply quiet_handler; congruence]).
  - (* ClickAnalyze *)
    simpl in Off. apply negb_true_iff, orb_false_iff in Off.
    destruct Off as [Hflag Hlen].
    assert (Hne : urls (ui (world l)) <> []).
    { intros E. rewrite E in Hlen. discriminate. }
    destruct H as [Hw [Ha Hb] | X op k Hw (Ha & _) Hk]; [|congruence].
    destruct (analyzeCompetitors_sends _ Hne) as (k & Ek & Hk).
    unfold dispatch, spawn. simpl handler. rewrite Ek, Hw. simpl.
    eapply coherent_busy with (k := k); [reflexivity | | exact Hk].
    repeat split.
  - (* Settle *)
    simpl.
    destruct H as [Hw Hc | X op k Hw Hb Hk].
    + rewrite Hw. destruct n; exact (coherent_calm _ Hw Hc).
    + rewrite Hw. destruct n as [|n]; simpl.
      * apply settling_resume; [apply Hk | exact Hb].
      * destruct n; exact (coherent_busy _ X op k Hw Hb Hk).
Qed.

Lemma coherent_play es : forall l,
  Coherent l -> Coherent (fold_left ui_dispatch es l).
Proof.
  induction es as [|e es IH]; intros l H; simpl; [exact H|].
  apply IH, coherent_step, H.
Qed.




(** The three other session states are reached through the controls. *)
Lemma sessions_reached_through_controls :
  active (ui (world (fold_left ui_dispatch
                       [Change "a"; ClickAdd; ClickAnalyze] start))) Analyzing
  /\ active (ui (world (fold_left ui_dispatch
                          [Change "a"; ClickAdd; ClickAnalyze;
                           Settle 0 answers_ok; Settle 0 answers_ok] start)))
       (Succeeded sample_result)
  /\ active (ui (world (fold_left ui_dispatch
                          [Change "a"; ClickAdd; ClickAnalyze;
                           Settle 0 no_answers] start)))
       (Failed "Произошла ошибка").
Proof. repeat split. Qed.

(** Whatever else has run in between, a waiting call of [analyzeCompetitors]
    that is resumed either stops at another promise or ends with the flag
    reset: there is no exit that leaves it up. *)
Lemma reset_on_every_exit t :
  Settling t -> forall w,
    match advance t w with
    | (None, w') => isAnalyzing (ui w') = false
    | (Some (Susp op k), w') => forall a, Settling (k a)
    end.
Proof.
  intros [d|m|X op k Hk] w; simpl; [reflexivity | reflexivity | exact Hk].
Qed.

(** * Further properties of the component *)

(** ** A whole analysis call *)



(** X2: a call with urls in the list sends exactly one request, whatever
    comes back: a POST to the analyze address with the JSON content type and
    the url list of the click as its body.  It opens no window and leaves the
    url list and the input field as they were. *)
Theorem analyze_sends_one_request (env : Env) (w : World) :
  urls (ui w) <> [] ->
  let w' := call env analyzeCompetitors w in
  requests w' = requests w ++ [analyze_request (urls (ui w))]
  /\ opened w' = opened w
  /\ urls (ui w') = urls (ui w)
  /\ urlInput (ui w') = urlInput (ui w).
Proof.
  intros Hne w'. subst w'. unfold analyze_request.
  settle_all env; simpl; rewrite ?Eurls; repeat split.
Qed.

Lemma analyze_sends_one_request_witness :
  requests (call no_answers analyzeCompetitors (sample_world ["a"; "b"] ""))
  = [analyze_request ["a"; "b"]].
Proof.
  destruct (analyze_sends_one_request no_answers (sample_world ["a"; "b"] ""))
    as [H _]; [discriminate|].
  rewrite H. reflexivity.
Defined.

(** X3: a call with urls in the list ends with either a result and no error
    or an error and no result, whatever was stored before it: an earlier
    result does not outlive a failed call, nor an earlier error a successful
    one. *)
Theorem analyze_ends_with_result_or_error (env : Env) (w : World) :
  urls (ui w) <> [] ->
  let s' := ui (call env analyzeCompetitors w) in
  (exists d, result s' = Some d /\ error s' = None)
  \/ (exists m, result s' = None /\ error s' = Some m).
Proof.
  intros Hne s'. subst s'.
  settle_all env; simpl;
    solve [left; eexists; split; reflexivity
          | right; eexists; split; reflexivity].
Qed.

Lemma analyze_ends_with_result_or_error_witness :
  result (ui (call no_answers analyzeCompetitors
                {| ui := {| urls := ["a"]; urlInput := "";
                            isAnalyzing := false;
                            result := Some sample_result; error := None |};
                   opened := []; requests := [] |})) = None.
Proof.
  destruct (analyze_ends_with_result_or_error no_answers
              {| ui := {| urls := ["a"]; urlInput := ""; isAnalyzing := false;
                          result := Some sample_result; error := None |};
                 opened := []; requests := [] |} ltac:(discriminate))
    as [(d & H & _) | (m & H & _)].
  - discriminate H.
  - exact H.
Defined.

Lemma or_else_nonempty (a : option string) (b : string) :
  b <> "" -> or_else a b <> "".
Proof.
  intros Hb. unfold or_else. destruct a as [m|]; [|exact Hb].
  destruct (JsString.truthy m) eqn:E; [|exact Hb].
  now apply truthy_nonempty.
Qed.

(** X4: after a non-success response whose body is read, the stored error is
    never the empty string, whatever the body holds, so the error panel is
    shown with exactly the stored text and there is no results section. *)
Theorem http_error_is_always_shown
  (env : Env) (w : World) (r : Response) (d : ErrorData) :
  urls (ui w) <> [] ->
  (forall url init, env Response (fetch url init) = Fulfilled r) ->
  ok r = false ->
  env ErrorData (json_any r) = Fulfilled d ->
  let s' := ui (call env analyzeCompetitors w) in
  exists m, m <> "" /\ error s' = Some m
    /\ error_message (render s') = Some m
    /\ results_section (render s') = None.
Proof.
  intros Hne Hf Hok Hj s'. subst s'.
  destruct r as [okr]. simpl in Hok. subst okr.
  settle_all env; rewrite Hf in Efetch; try discriminate;
    try discriminate Hj.
  injection Hj as <-. simpl.
  exists (or_else detail0 "Ошибка при анализе").
  assert (Hm : or_else detail0 "Ошибка при анализе" <> "")
    by (apply or_else_nonempty; discriminate).
  split; [exact Hm|]. split; [reflexivity|]. split; [|reflexivity].
  apply truthy_nonempty in Hm. rewrite Hm. reflexivity.
Qed.

Lemma http_error_is_always_shown_witness :
  error_message
    (render (ui (call (env_of (Fulfilled {| ok := false |})
                         (Rejected OtherValue)
                         (Fulfilled {| detail := Some "" |}))
                   analyzeCompetitors (sample_world ["a"] ""))))
  <> None.
Proof.
  destruct (http_error_is_always_shown
              (env_of (Fulfilled {| ok := false |}) (Rejected OtherValue)
                 (Fulfilled {| detail := Some "" |}))
              (sample_world ["a"] "") {| ok := false |}
              {| detail := Some "" |} ltac:(discriminate)
              ltac:(reflexivity) eq_refl eq_refl) as (m & _ & _ & H & _).
  rewrite H. discriminate.
Defined.



(** ** The click on the analyze button *)

(** X6: with urls in the list, the click runs the handler up to its request:
    the flag goes up, error and result are cleared, the request with the url
    list is sent and the handler waits for it; the view then has a disabled
    analyze button with the in-progress label, no error panel and no results
    section. *)
Theorem click_analyze_starts_request (l : Loop) :
  urls (ui (world l)) <> [] ->
  let l' := dispatch l ClickAnalyze in
  ui (world l') = {| urls := urls (ui (world l));
                     urlInput := urlInput (ui (world l));
                     isAnalyzing := true; result := None; error := None |}
  /\ requests (world l')
     = requests (world l) ++ [analyze_request (urls (ui (world l)))]
  /\ opened (world l') = opened (world l)
  /\ (exists k, waiting l'
        = waiting l ++ [Susp (fetch (fst (analyze_request (urls (ui (world l)))))
                                (snd (analyze_request (urls (ui (world l)))))) k]
        /\ forall a, Settling (k a))
  /\ analyze_disabled (render (ui (world l'))) = true
  /\ analyze_label (render (ui (world l'))) = "Анализируем..."
  /\ error_message (render (ui (world l'))) = None
  /\ results_section (render (ui (world l'))) = None.
Proof.
  intros Hne l'. subst l'.
  destruct (analyzeCompetitors_sends _ Hne) as (k & Ek & Hk).
  unfold dispatch, spawn. simpl handler. rewrite Ek. simpl.
  repeat split. exists k. split; [reflexivity | exact Hk].
Qed.

Lemma click_analyze_witness :
  isAnalyzing (ui (world (dispatch
                            {| world := sample_world ["a"] ""; waiting := [] |}
                            ClickAnalyze))) = true.
Proof.
  destruct (click_analyze_starts_request
              {| world := sample_world ["a"] ""; waiting := [] |}
              ltac:(discriminate)) as [H _].
  rewrite H. reflexivity.
Defined.

(** X7: the validation branch cannot be reached through the analyze button:
    with an empty url list the button is disabled, and whenever it is enabled
    the list has urls, nothing is in progress, and the click sends a request
    and stores no error. *)
Theorem enabled_button_never_validates (l : Loop) :
  (urls (ui (world l)) = [] ->
     analyze_disabled (render (ui (world l))) = true
     /\ ui_dispatch l ClickAnalyze = l)
  /\ (analyze_disabled (render (ui (world l))) = false ->
        urls (ui (world l)) <> []
        /\ isAnalyzing (ui (world l)) = false
        /\ ui_dispatch l ClickAnalyze = dispatch l ClickAnalyze
        /\ length (requests (world (ui_dispatch l ClickAnalyze)))
           = S (length (requests (world l)))
        /\ error (ui (world (ui_dispatch l ClickAnalyze))) = None).
Proof.
  split.
  - intros E. unfold ui_dispatch. simpl. rewrite E. simpl.
    rewrite orb_true_r. split; reflexivity.
  - intros Hd. simpl in Hd. apply orb_false_iff in Hd. destruct Hd as [Hf Hl].
    assert (Hne : urls (ui (world l)) <> []).
    { intros E. rewrite E in Hl. discriminate. }
    split; [exact Hne|]. split; [exact Hf|].
    assert (Hu : ui_dispatch l ClickAnalyze = dispatch l ClickAnalyze).
    { unfold ui_dispatch. simpl offered. rewrite Hf, Hl. reflexivity. }
    split; [exact Hu|]. rewrite Hu.
    destruct (analyzeCompetitors_sends _ Hne) as (k & Ek & Hk).
    unfold dispatch, spawn. simpl handler. rewrite Ek. simpl.
    split; [|reflexivity]. rewrite length_app. simpl. lia.
Qed.

Lemma enabled_button_witness :
  ui_dispatch start ClickAnalyze = start
  /\ length (requests (world (ui_dispatch
                                {| world := sample_world ["a"] "";
                                   waiting := [] |} ClickAnalyze))) = 1.
Proof.
  split.
  - destruct (enabled_button_never_validates start) as [H _].
    apply H. reflexivity.
  - destruct (enabled_button_never_validates
                {| world := sample_world ["a"] ""; waiting := [] |})
      as [_ H].
    destruct (H eq_refl) as (_ & _ & _ & E & _). exact E.
Defined.

(** ** Editing the url list *)

(** X8: [addUrl] twice in a row is [addUrl] once: after a url was added the
    input field is empty, and an input that was refused is refused again. *)
Theorem addUrl_twice_is_once (env : Env) (w : World) :
  call env addUrl (call env addUrl w) = call env addUrl w.
Proof.
  unfold call at 2 3. unfold addUrl at 2 3.
  destruct (JsString.truthy _ && negb (JsString.includes _ _)) eqn:E.
  - simpl. unfold call, addUrl. simpl. reflexivity.
  - simpl. unfold call, addUrl. rewrite E. reflexivity.
Qed.

Lemma drop_last_appended {A : Type} (l : list A) (x : A) :
  firstn (length l) (l ++ [x]) ++ skipn (S (length l)) (l ++ [x]) = l.
Proof.
  induction l as [|a l IH]; [reflexivity|].
  change (a :: (firstn (length l) (l ++ [x])
                  ++ skipn (S (length l)) (l ++ [x])) = a :: l).
  now rewrite IH.
Qed.

(** X9: removing the position a url was just added at gives the url list
    back: when [addUrl] appends, [removeUrl] at the old length of the list
    restores the list, the input field staying cleared. *)
Theorem remove_after_add_restores (env : Env) (w : World) :
  JsString.trim (urlInput (ui w)) <> "" ->
  ~ In (JsString.trim (urlInput (ui w))) (urls (ui w)) ->
  let w' := call env (fun s => removeUrl s (Z.of_nat (length (urls (ui w)))))
              (call env addUrl w) in
  urls (ui w') = urls (ui w) /\ urlInput (ui w') = "".
Proof.
  intros Ht Hn w'. subst w'.
  apply truthy_nonempty in Ht.
  assert (Hi : JsString.includes (urls (ui w))
                 (JsString.trim (urlInput (ui w))) = false).
  { destruct (JsString.includes _ _) eqn:E; [|reflexivity].
    apply includes_In in E. contradiction. }
  assert (Ha : call env addUrl w
               = apply (setUrlInput "")
                   (apply (setUrls (urls (ui w)
                                      ++ [JsString.trim (urlInput (ui w))])) w)).
  { unfold call, addUrl. rewrite Ht, Hi. reflexivity. }
  rewrite Ha. unfold call, removeUrl, array_filter. simpl.
  split; [|reflexivity].
  rewrite filter_from_drop by (rewrite length_app; simpl; lia).
  rewrite Z.sub_0_r, Nat2Z.id. apply drop_last_appended.
Qed.

Lemma remove_after_add_witness :
  urls (ui (call no_answers (fun s => removeUrl s 2)
              (call no_answers addUrl (sample_world ["a"; "b"] " c "))))
  = ["a"; "b"].
Proof.
  destruct (remove_after_add_restores no_answers
              (sample_world ["a"; "b"] " c ")) as [H _].
  - discriminate.
  - simpl. intros [E|[E|[]]]; discriminate E.
  - exact H.
Defined.

Lemma nth_split_around {A : Type} (l : list A) :
  forall i x, nth_error l i = Some x ->
    l = firstn i l ++ x :: skipn (S i) l.
Proof.
  induction l as [|a l IH]; intros [|i] x; simpl; try discriminate.
  - intros [= ->]. reflexivity.
  - intros H. f_equal. now apply IH.
Qed.

(** X10: in a url list without duplicates, [removeUrl] at a position inside
    the list takes that url out of the list and keeps every other url, so
    the removed url can be added again. *)
Theorem removeUrl_forgets_only_that_url
  (env : Env) (w : World) (i : nat) (u : string) :
  NoDup (urls (ui w)) ->
  nth_error (urls (ui w)) i = Some u ->
  let w' := call env (fun s => removeUrl s (Z.of_nat i)) w in
  ~ In u (urls (ui w'))
  /\ (forall x, x <> u -> (In x (urls (ui w')) <-> In x (urls (ui w))))
  /\ JsString.includes (urls (ui w')) u = false.
Proof.
  intros Hnd Hi w'. subst w'.
  unfold call, removeUrl, array_filter. simpl.
  assert (Hlen : (i < length (urls (ui w)))%nat)
    by (apply nth_error_Some; congruence).
  rewrite filter_from_drop by lia. rewrite Z.sub_0_r, Nat2Z.id.
  pose proof (nth_split_around _ _ _ Hi) as Hs.
  set (a := firstn i (urls (ui w))) in *.
  set (b := skipn (S i) (urls (ui w))) in *.
  rewrite Hs in Hnd. apply NoDup_remove in Hnd. destruct Hnd as [_ Hnot].
  split; [exact Hnot|]. split.
  - intros x Hx. rewrite Hs. rewrite !in_app_iff. simpl. split.
    + intros [H|H]; auto.
    + intros [H|[H|H]]; auto. congruence.
  - destruct (JsString.includes (a ++ b) u) eqn:E; [|reflexivity].
    apply includes_In in E. contradiction.
Qed.

Lemma removeUrl_forgets_witness :
  JsString.includes
    (urls (ui (call no_answers (fun s => removeUrl s 1)
                 (sample_world ["a"; "b"; "c"] "")))) "b" = false.
Proof.
  destruct (removeUrl_forgets_only_that_url no_answers
              (sample_world ["a"; "b"; "c"] "") 1 "b") as (_ & _ & H).
  - constructor; [simpl; intros [E|[E|[]]]; discriminate E|].
    constructor; [simpl; intros [E|[]]; discriminate E|].
    constructor; [simpl; tauto | constructor].
  - reflexivity.
  - exact H.
Defined.

(** X11: the url [addUrl] appends is the input without the white space
    around it and nothing else changed: the input is that url between two
    runs of white space, and the url has no white space at either end, while
    white space inside it is kept. *)
Theorem addUrl_strips_only_the_ends (env : Env) (w : World) :
  JsString.trim (urlInput (ui w)) <> "" ->
  ~ In (JsString.trim (urlInput (ui w))) (urls (ui w)) ->
  exists u p q,
    urls (ui (call env addUrl w)) = urls (ui w) ++ [u]
    /\ list_ascii_of_string (urlInput (ui w))
       = p ++ list_ascii_of_string u ++ q
    /\ JsString.trimStart p = [] /\ JsString.trimEnd q = []
    /\ JsString.trimStart (list_ascii_of_string u) = list_ascii_of_string u
    /\ JsString.trimEnd (list_ascii_of_string u) = list_ascii_of_string u.
Proof.
  intros Ht Hn.
  destruct (trim_decompose (urlInput (ui w))) as (p & q & H1 & H2 & H3 & H4 & H5).
  exists (JsString.trim (urlInput (ui w))), p, q.
  split; [|now repeat split].
  apply truthy_nonempty in Ht.
  unfold call, addUrl. rewrite Ht.
  destruct (JsString.includes _ _) eqn:E.
  - apply includes_In in E. contradiction.
  - reflexivity.
Qed.

Lemma addUrl_strips_witness :
  urls (ui (call no_answers addUrl (sample_world [] "  a b  "))) = ["a b"].
Proof.
  destruct (addUrl_strips_only_the_ends no_answers (sample_world [] "  a b  "))
    as (u & p & q & H & _).
  - discriminate.
  - intros [].
  - reflexivity.
Defined.

(** X12: the Enter key in the url field does what the add button does, and
    every other key, "enter" in lower case included, changes nothing. *)
Theorem enter_key_adds (l : Loop) (key : string) :
  (key = "Enter" -> dispatch l (KeyPress key) = dispatch l ClickAdd)
  /\ (key <> "Enter" -> dispatch l (KeyPress key) = l)
  /\ dispatch l (KeyPress "enter") = l.
Proof.
  assert (Hother : forall k, String.eqb k "Enter" = false ->
                     dispatch l (KeyPress k) = l).
  { intros k E. unfold dispatch, spawn. simpl. unfold handleKeyPress.
    rewrite E. simpl. destruct l as [wl ws]. reflexivity. }
  split; [|split].
  - intros ->. reflexivity.
  - intros Hk. apply Hother. now apply String.eqb_neq.
  - apply Hother. reflexivity.
Qed.

Lemma enter_key_witness :
  urls (ui (world (dispatch {| world := sample_world [] "a"; waiting := [] |}
                     (KeyPress "Enter")))) = ["a"]
  /\ dispatch start (KeyPress "Tab") = start.
Proof.
  split.
  - destruct (enter_key_adds {| world := sample_world [] "a"; waiting := [] |}
                "Enter") as [H _].
    rewrite (H eq_refl). reflexivity.
  - destruct (enter_key_adds start "Tab") as (_ & H & _).
    apply H. discriminate.
Defined.

(** X13: every remove button the view offers removes exactly one url: the
    positions offered are those inside the list, and the click leaves the
    list one url shorter, the url at that position being the one that
    goes. *)
Theorem offered_remove_takes_one (l : Loop) (index : Z) :
  offered (render (ui (world l))) (ClickRemove index) = true ->
  let l' := ui_dispatch l (ClickRemove index) in
  (0 <= index < Z.of_nat (length (urls (ui (world l)))))%Z
  /\ S (length (urls (ui (world l')))) = length (urls (ui (world l)))
  /\ urls (ui (world l'))
     = firstn (Z.to_nat index) (urls (ui (world l)))
       ++ skipn (S (Z.to_nat index)) (urls (ui (world l)))
  /\ waiting l' = waiting l.
Proof.
  intros Hoff l'. subst l'. unfold ui_dispatch. rewrite Hoff.
  simpl in Hoff.
  destruct (Nat.ltb 0 (length (urls (ui (world l))))); [|discriminate].
  apply andb_true_iff in Hoff. destruct Hoff as [H0 H1].
  apply Z.leb_le in H0. apply Z.ltb_lt in H1.
  split; [lia|].
  unfold dispatch, spawn. simpl. unfold array_filter.
  rewrite filter_from_drop by lia. rewrite Z.sub_0_r.
  split; [|split; reflexivity].
  rewrite length_app, length_firstn, length_skipn. lia.
Qed.

Lemma offered_remove_witness :
  urls (ui (world (ui_dispatch
                     {| world := sample_world ["a"; "b"] ""; waiting := [] |}
                     (ClickRemove 0)))) = ["b"].
Proof.
  destruct (offered_remove_takes_one
              {| world := sample_world ["a"; "b"] ""; waiting := [] |} 0
              eq_refl) as (_ & _ & H & _).
  rewrite H. reflexivity.
Defined.

(** ** The event loop *)

Lemma settling_advance t :
  Settling t -> forall w,
    urls (ui (snd (advance t w))) = urls (ui w)
    /\ urlInput (ui (snd (advance t w))) = urlInput (ui w)
    /\ opened (snd (advance t w)) = opened w
    /\ match fst (advance t w) with
       | Some p => waiting_analysis p
       | None => True
       end.
Proof.
  intros [d|m|X op k Hk] w; simpl; repeat split; try exact Hk;
    destruct op; reflexivity.
Qed.

Lemma Forall_remove_nth {A : Type} (P : A -> Prop) (l : list A) :
  forall n, Forall P l -> Forall P (remove_nth n l).
Proof.
  induction l as [|a l IH]; intros [|n] H; simpl; try constructor;
    inversion H; subst; auto.
Qed.

Lemma addUrl_keeps_urls_ok (l : list string) (input : string) :
  urls_ok l ->
  urls_ok (if JsString.truthy (JsString.trim input)
              && negb (JsString.includes l (JsString.trim input))
           then l ++ [JsString.trim input] else l).
Proof.
  intros [Hall Hnd].
  destruct (JsString.truthy _) eqn:Ht; simpl; [|now split].
  destruct (JsString.includes _ _) eqn:Hi; simpl; [now split|].
  split.
  - apply Forall_app. split; [exact Hall|].
    constructor; [|constructor]. split.
    + now apply truthy_nonempty.
    + apply trim_idem.
  - apply NoDup_app; [exact Hnd | repeat constructor; simpl; tauto |].
    intros x Hx [<-|[]]. apply includes_In in Hx. congruence.
Qed.

Lemma spawn_addUrl (l : Loop) :
  spawn (addUrl (ui (world l))) (waiting l) (world l)
  = {| world := snd (advance (addUrl (ui (world l))) (world l));
       waiting := waiting l |}
  /\ urls (ui (snd (advance (addUrl (ui (world l))) (world l))))
     = (if JsString.truthy (JsString.trim (urlInput (ui (world l))))
           && negb (JsString.includes (urls (ui (world l)))
                      (JsString.trim (urlInput (ui (world l)))))
        then urls (ui (world l)) ++ [JsString.trim (urlInput (ui (world l)))]
        else urls (ui (world l))).
Proof.
  unfold spawn, addUrl.
  destruct (JsString.truthy _ && negb (JsString.includes _ _));
    simpl; split; reflexivity.
Qed.

(** The url list is well formed and every waiting handler is the rest of an
    analysis call. *)
Lemma loop_keeps_urls_ok (l : Loop) (e : Event) :
  urls_ok (urls (ui (world l))) /\ Forall waiting_analysis (waiting l) ->
  urls_ok (urls (ui (world (dispatch l e))))
  /\ Forall waiting_analysis (waiting (dispatch l e)).
Proof.
  intros [Hu Hw].
  destruct e as [v|key| |index| | |n env].
  - simpl. unfold spawn. simpl. now split.
  - unfold dispatch, handler, handleKeyPress.
    destruct (String.eqb key "Enter").
    + destruct (spawn_addUrl l) as [-> Hl]. simpl. rewrite Hl.
      split; [now apply addUrl_keeps_urls_ok | exact Hw].
    + unfold spawn. simpl. now split.
  - unfold dispatch, handler.
    destruct (spawn_addUrl l) as [-> Hl]. simpl. rewrite Hl.
    split; [now apply addUrl_keeps_urls_ok | exact Hw].
  - simpl. unfold spawn. simpl. split; [|exact Hw].
    destruct Hu as [Ha Hn]. unfold array_filter. split.
    + now apply filter_from_Forall.
    + now apply filter_from_NoDup.
  - unfold dispatch, handler.
    destruct (urls (ui (world l))) as [|u us] eqn:E.
    + unfold analyzeCompetitors, spawn. rewrite E. simpl. rewrite E.
      now split.
    + assert (Hne : urls (ui (world l)) <> []) by congruence.
      destruct (analyzeCompetitors_sends _ Hne) as (k & Ek & Hk).
      unfold spawn. rewrite Ek. simpl. rewrite ?E. split; [exact Hu|].
      apply Forall_app. split; [exact Hw|]. constructor; [exact Hk|constructor].
  - unfold dispatch, handler, downloadPDF, spawn.
    destruct (result (ui (world l))) as [r|]; [|simpl; now split].
    destruct (JsString.truthy (pdf_path r)); [|simpl; now split].
    destruct (JsString.encodeURIComponent (pdf_path r)); simpl; now split.
  - unfold dispatch.
    destruct (nth_error (waiting l) n) as [[X op k]|] eqn:En; [|now split].
    assert (Hk : forall a, Settling (k a)).
    { apply nth_error_In in En. rewrite Forall_forall in Hw.
      exact (Hw _ En). }
    destruct (settling_advance _ (Hk (env X op)) (world l))
      as (H1 & _ & _ & H4).
    unfold spawn.
    destruct (advance (k (env X op)) (world l)) as [[p|] w'];
      simpl in *; rewrite H1; (split; [exact Hu|]).
    + apply Forall_app. split; [now apply Forall_remove_nth|].
      constructor; [exact H4|constructor].
    + now apply Forall_remove_nth.
Qed.

(** X14: whatever handlers are called, in whatever order, and however the
    promises settle, two requests in flight at once included, the url list
    always holds non-empty trimmed strings without duplicates. *)
Theorem urls_ok_in_every_reachable_state (es : list Event) :
  urls_ok (urls (ui (world (fold_left dispatch es start)))).
Proof.
  assert (H : forall l,
             urls_ok (urls (ui (world l)))
             /\ Forall waiting_analysis (waiting l) ->
             urls_ok (urls (ui (world (fold_left dispatch es l))))).
  { induction es as [|e es IH]; intros l Hl; simpl; [apply Hl|].
    apply IH, loop_keeps_urls_ok, Hl. }
  apply H. split; [split; constructor | constructor].
Qed.

(** X15: through the rendered controls there is never more than one analysis
    call waiting, and the flag is up exactly while one is. *)
Theorem one_request_in_flight (es : list Event) :
  let l := fold_left ui_dispatch es start in
  (length (waiting l) <= 1)%nat
  /\ (isAnalyzing (ui (world l)) = true <-> waiting l <> []).
Proof.
  intros l.
  assert (H : Coherent l).
  { apply coherent_play, coherent_calm; [reflexivity|].
    split; [reflexivity | now left]. }
  destruct H as [Hw [Ha _] | X op k Hw (Ha & _) _]; rewrite Hw; simpl.
  - split; [lia|]. split; congruence.
  - split; [lia|]. split; [discriminate | intros _; exact Ha].
Qed.

Lemma quiet_requests t :
  Quiet t -> forall w, requests (snd (advance t w)) = requests w.
Proof.
  induction 1; intros w; simpl; try reflexivity;
    match goal with
    | |- context [advance ?k ?w'] => rewrite (IHQuiet w')
    end; reflexivity.
Qed.

(** X16: while an analysis call is waiting, nothing the controls deliver
    disturbs it: editing the url list, typing, the Enter key, the analyze
    button (disabled) and the download button leave the waiting call, the
    requests sent and the flag as they are, with no result and no error
    stored.  There is no way to cancel or to resubmit. *)
Theorem waiting_call_is_undisturbed (es : list Event) (e : Event) :
  let l := fold_left ui_dispatch es start in
  isAnalyzing (ui (world l)) = true ->
  (forall n env, e <> Settle n env) ->
  waiting (ui_dispatch l e) = waiting l
  /\ requests (world (ui_dispatch l e)) = requests (world l)
  /\ isAnalyzing (ui (world (ui_dispatch l e))) = true
  /\ result (ui (world (ui_dispatch l e))) = None
  /\ error (ui (world (ui_dispatch l e))) = None.
Proof.
  intros l Hflag Hsettle.
  assert (H : Coherent l).
  { apply coherent_play, coherent_calm; [reflexivity|].
    split; [reflexivity | now left]. }
  assert (Hb : busy (ui (world l))).
  { destruct H as [_ [Ha _] | X op k _ Hb _]; [congruence | exact Hb]. }
  destruct Hb as (_ & Hr & He).
  unfold ui_dispatch.
  destruct (offered (render (ui (world l))) e) eqn:Off; [|now repeat split].
  assert (Hq : Quiet (handler e (ui (world l)))).
  { apply quiet_handler; [intros env n; apply Hsettle|].
    intros ->. simpl in Off. rewrite Hflag in Off. discriminate. }
  assert (Hd : dispatch l e
               = spawn (handler e (ui (world l))) (waiting l) (world l)).
  { destruct e; try reflexivity. exfalso. eapply Hsettle. reflexivity. }
  rewrite Hd. unfold spawn.
  destruct (quiet_advance _ Hq (world l)) as [H1 (H2 & H3 & H4)].
  pose proof (quiet_requests _ Hq (world l)) as H5.
  destruct (advance (handler e (ui (world l))) (world l)) as [[p|] w'];
    simpl in *; [discriminate|].
  repeat split; congruence.
Qed.

Lemma waiting_call_witness :
  urls (ui (world (fold_left ui_dispatch
                     [Change "a"; ClickAdd; ClickAnalyze; ClickRemove 0]
                     start))) = []
  /\ length (waiting (fold_left ui_dispatch
                        [Change "a"; ClickAdd; ClickAnalyze; ClickRemove 0]
                        start)) = 1.
Proof.
  destruct (waiting_call_is_undisturbed [Change "a"; ClickAdd; ClickAnalyze]
              (ClickRemove 0) eq_refl) as [H _].
  - discriminate.
  - split; [reflexivity|].
    change (fold_left ui_dispatch
              [Change "a"; ClickAdd; ClickAnalyze; ClickRemove 0] start)
      with (ui_dispatch
              (fold_left ui_dispatch [Change "a"; ClickAdd; ClickAnalyze] start)
              (ClickRemove 0)).
    rewrite H. reflexivity.
Defined.

(** ** The download address *)

Lemma hex_digits_encoded (c : ascii) :
  encoded_char (JsString.hex_digit (JsString.code c / 16)) = true
  /\ encoded_char (JsString.hex_digit (JsString.code c mod 16)) = true.
Proof.
  destruct c as [[] [] [] [] [] [] [] []]; vm_compute; split; reflexivity.
Qed.

Lemma encode_chars (s : string) :
  forall q, JsString.encodeURIComponent s = Some q ->
    Forall (fun c => encoded_char c = true) (list_ascii_of_string q).
Proof.
  induction s as [|c r IH]; intros q; [intros [= <-]; constructor|].
  cbn [JsString.encodeURIComponent].
  destruct (JsString.surrogate_at c r); [discriminate|].
  destruct (JsString.encodeURIComponent r) as [e|]; [|discriminate].
  specialize (IH e eq_refl).
  destruct (JsString.unreserved c) eqn:U; intros [= <-];
    cbn [list_ascii_of_string].
  - constructor; [|exact IH]. unfold encoded_char. now rewrite U.
  - destruct (hex_digits_encoded c) as [H1 H2].
    repeat (constructor; try assumption).
Qed.

Lemma encode_injective (p1 p2 q : string) :
  JsString.encodeURIComponent p1 = Some q ->
  JsString.encodeURIComponent p2 = Some q -> p1 = p2.
Proof.
  intros E1 E2.
  apply percent_decode_encode in E1. apply percent_decode_encode in E2.
  congruence.
Qed.

(** X17: for a [pdf_path] that is not empty and holds no lone surrogate,
    the [path] parameter of the opened download address is not empty and is
    made of unreserved characters and percent signs only, so it holds none
    of & # ? / = + or the space and cannot end or split the query; and no
    other path is encoded to the same parameter. *)
Theorem download_parameter_is_safe
  (env : Env) (w : World) (r : AnalyzeResponse) :
  result (ui w) = Some r ->
  pdf_path r <> "" ->
  ~ has_lone_surrogate (pdf_path r) ->
  exists q,
    opened (call env downloadPDF w)
    = opened w ++ [((API_BASE ++ "/api/download?path=" ++ q)%string, "_blank")]
    /\ q <> ""
    /\ (forall c, In c (list_ascii_of_string q) ->
          encoded_char c = true
          /\ ~ In c (list_ascii_of_string "&#?/=+ "))
    /\ (forall p, JsString.encodeURIComponent p = Some q -> p = pdf_path r).
Proof.
  intros Hr Hp Hs.
  destruct (JsString.encodeURIComponent (pdf_path r)) as [q|] eqn:E;
    [|apply encode_throws_iff in E; contradiction].
  exists q. split; [|split; [|split]].
  - unfold call, downloadPDF. rewrite Hr.
    apply truthy_nonempty in Hp. rewrite Hp, E. reflexivity.
  - destruct (pdf_path r) as [|c s]; [congruence|].
    cbn [JsString.encodeURIComponent] in E.
    destruct (JsString.surrogate_at c s); [discriminate|].
    destruct (JsString.encodeURIComponent s); [|discriminate].
    destruct (JsString.unreserved c); injection E as <-; discriminate.
  - intros c Hc.
    pose proof (encode_chars (pdf_path r) q E) as Hall.
    rewrite Forall_forall in Hall. specialize (Hall c Hc).
    split; [exact Hall|].
    simpl. intros H. decompose [or] H; subst; try discriminate; assumption.
  - intros p Ep. exact (encode_injective _ _ _ Ep E).
Qed.

Lemma download_parameter_witness :
  exists q,
    q <> ""
    /\ opened (call no_answers downloadPDF
                 {| ui := {| urls := []; urlInput := "";
                             isAnalyzing := false;
                             result := Some {| report_text := "X";
                                               pdf_path := "a&b c";
                                               charts := [] |};
                             error := None |};
                    opened := []; requests := [] |})
       = [((API_BASE ++ "/api/download?path=" ++ q)%string, "_blank")].
Proof.
  destruct (download_parameter_is_safe no_answers
              {| ui := {| urls := []; urlInput := ""; isAnalyzing := false;
                          result := Some {| report_text := "X";
                                            pdf_path := "a&b c";
                                            charts := [] |};
                          error := None |};
                 opened := []; requests := [] |}
              {| report_text := "X"; pdf_path := "a&b c"; charts := [] |}
              eq_refl ltac:(discriminate)) as (q & H & Hq & _).
  - intros H. apply encode_throws_iff in H. discriminate H.
  - exists q. split; [exact Hq | exact H].
Defined.

Example download_parameter_sample :
  JsString.encodeURIComponent "a&b c" = Some "a%26b%20c".
Proof. reflexivity. Qed.

(** ** Chart addresses *)

Lemma split_whole (c : ascii) (s : string) :
  free_of c s -> JsString.split c s = [s].
Proof.
  induction s as [|a r IH]; intros Hf; [reflexivity|].
  simpl. destruct (Ascii.eqb_spec a c) as [->|Hne].
  - exfalso. apply Hf. simpl. now left.
  - rewrite IH; [reflexivity|]. intros H. apply Hf. simpl. now right.
Qed.

Lemma pop_cons_nonempty (x : string) (l : list string) :
  l <> [] -> JsString.pop (x :: l) = JsString.pop l.
Proof. destruct l; [congruence | reflexivity]. Qed.

Lemma split_after_has_two (c : ascii) (pre b : string) :
  exists h h' t, JsString.split c (pre ++ String c b) = h :: h' :: t.
Proof.
  induction pre as [|a r IH]; simpl.
  - rewrite Ascii.eqb_refl.
    pose proof (split_nonempty c b) as Hn.
    destruct (JsString.split c b) as [|h' t]; [congruence|]. eauto.
  - destruct IH as (h & h' & t & E). rewrite E.
    destruct (Ascii.eqb a c); eauto.
Qed.

Lemma pop_split_after (c : ascii) (pre b : string) :
  JsString.pop (JsString.split c (pre ++ String c b))
  = JsString.pop (JsString.split c b).
Proof.
  induction pre as [|a r IH]; simpl.
  - rewrite Ascii.eqb_refl. apply pop_cons_nonempty, split_nonempty.
  - destruct (split_after_has_two c r b) as (h & h' & t & E).
    rewrite E in *. destruct (Ascii.eqb a c); exact IH.
Qed.

(** X18: the address of a chart image is decided by the text after the last
    '/' of the stored path: a path written as anything, a '/', and a text
    without '/' is shown from /charts/ followed by that text; a path without
    any '/', such as one written with backslashes, is used whole; and a path
    that ends in '/' is shown from the bare /charts/ address. *)
Theorem chart_address_by_last_slash (pre b : string) (index : nat) :
  free_of "/" b ->
  src (chart_img (pre ++ "/" ++ b) index) = (API_BASE ++ "/charts/" ++ b)%string
  /\ src (chart_img b index) = (API_BASE ++ "/charts/" ++ b)%string
  /\ src (chart_img (pre ++ "/") index) = (API_BASE ++ "/charts/")%string.
Proof.
  intros Hf. unfold chart_img. cbn [src].
  split; [|split].
  - change (pre ++ "/" ++ b)%string with (pre ++ String "/" b)%string.
    rewrite pop_split_after, (split_whole _ _ Hf). reflexivity.
  - rewrite (split_whole _ _ Hf). reflexivity.
  - change (pre ++ "/")%string with (pre ++ String "/" "")%string.
    rewrite pop_split_after. reflexivity.
Qed.

Lemma chart_address_witness :
  src (chart_img "reports/charts/1.png" 0)
  = "http://localhost:8000/charts/1.png"
  /\ src (chart_img "reports\charts\1.png" 0)
     = "http://localhost:8000/charts/reports\charts\1.png".
Proof.
  split.
  - destruct (chart_address_by_last_slash "reports/charts" "1.png" 0) as [H _].
    + unfold free_of. simpl. intros H.
      repeat (destruct H as [H|H]; [discriminate H|]). exact H.
    + exact H.
  - destruct (chart_address_by_last_slash "" "reports\charts\1.png" 0)
      as (_ & H & _).
    + unfold free_of. simpl. intros H.
      repeat (destruct H as [H|H]; [discriminate H|]). exact H.
    + exact H.
Defined.
